(** * js-cookie: a shallow embedding of [src/js-cookie.js]

    The library is one object, [Cookie], whose seven methods read and assign
    the host property [document.cookie].  The embedding has three layers:

    - [JS]: the fragment of ECMAScript the methods run on (primitive values,
      truthiness, [ToString], [String.prototype.split], plain objects and
      their [for-in] order);
    - [Cookie]: the seven methods, written in a state monad over an abstract
      document;
    - [Browser]: a cookie store behind [document.cookie], used for the
      properties that speak about a write followed by a read. *)

From Stdlib Require Import String Ascii List ZArith Lia Bool Permutation.
From Stdlib Require Import DecimalString.
Import ListNotations.
Open Scope string_scope.

(* ================================================================== *)
(** * Part I: definitions *)
(* ================================================================== *)

Module JS.

(** ** Primitive values

    The methods only ever see primitives.  Numbers are modelled on the
    safe integers, those of magnitude at most 2^53 - 1: each of them is a
    Number of its own and ECMAScript prints it as its decimal numeral.
    [VNum z] stands for a Number only when [z] is in that range ([exact]
    below), and what depends on how a number prints is stated for such
    values only; the other Numbers ([NaN], the infinities, [-0], fractions,
    larger integers) have no value here.  Strings are sequences of code
    units below 256. *)
Inductive value : Type :=
| VUndefined
| VNull
| VBool (b : bool)
| VNum (z : Z)
| VStr (s : string).

(** ToBoolean *)
Definition truthy (v : value) : bool :=
  match v with
  | VUndefined | VNull => false
  | VBool b => b
  | VNum z => negb (z =? 0)%Z
  | VStr s => negb (s =? "")
  end.

(** The values that stand for a value of the code: every one but a
    number out of the safe range. *)
Definition exact (v : value) : bool :=
  match v with
  | VNum z => (Z.abs z <=? 9007199254740991)%Z
  | _ => true
  end.

(** ToString, on the values that are [exact] *)
Definition ToString (v : value) : string :=
  match v with
  | VUndefined => "undefined"
  | VNull => "null"
  | VBool true => "true"
  | VBool false => "false"
  | VNum z => NilZero.string_of_int (Z.to_int z)
  | VStr s => s
  end.

(** [a || b] *)
Definition or (a b : value) : value := if truthy a then a else b.

(** [a === b] on primitives *)
Definition strict_eq (a b : value) : bool :=
  match a, b with
  | VUndefined, VUndefined => true
  | VNull, VNull => true
  | VBool x, VBool y => Bool.eqb x y
  | VNum x, VNum y => (x =? y)%Z
  | VStr x, VStr y => (x =? y)
  | _, _ => false
  end.

(** ** Characters *)

(** The class [\s] of regular expressions, on code units below 256:
    TAB, LF, VT, FF, CR, SP and NBSP. *)
Definition is_space (c : ascii) : bool :=
  let n := nat_of_ascii c in
  (((9 <=? n) && (n <=? 13)) || (n =? 32) || (n =? 160))%nat.

Definition is_semi (c : ascii) : bool := Ascii.eqb c ";".
Definition is_equals (c : ascii) : bool := Ascii.eqb c "=".

(** ** String.prototype.split

    ECMAScript's algorithm walks a position [q] through the string and a
    start-of-piece position [p] behind it.  At [q] it runs the separator's
    matcher; on failure [q] advances by one, on a match ending at [e] the
    piece from [p] to [q] is pushed and both positions jump to [e].  What
    is left after the last match is the final piece.

    [split_loop] is that loop by recursion on the text from [q] on: [cur]
    is the piece collected since [p], and [skip] counts the code units of
    the last match that are still to be stepped over.  A matcher returns the
    length of its match at the head of the text. *)
Section Split.
Variable matcher : string -> option nat.

Fixpoint split_loop (s : string) (skip : nat) (cur : string) : list string :=
  match s with
  | EmptyString => [cur]
  | String c s' =>
      match skip with
      | S k => split_loop s' k cur
      | O =>
          match matcher s with
          | Some e => cur :: split_loop s' (e - 1) ""
          | None => split_loop s' 0 (cur ++ String c "")
          end
      end
  end.

Definition split (s : string) : list string := split_loop s 0 "".
End Split.

(** Number of leading [\s] code units. *)
Fixpoint space_run (s : string) : nat :=
  match s with
  | String c s' => if is_space c then S (space_run s') else 0
  | EmptyString => 0
  end.

(** The matcher of [/\s*;\s*/] at the head of [s].  Both stars are greedy
    and no shorter run of spaces can be followed by [;], so the match, when
    there is one, is the whole run of spaces, the semicolon and the whole
    run of spaces after it. *)
Fixpoint match_delimiter (s : string) : option nat :=
  match s with
  | EmptyString => None
  | String c s' =>
      if is_semi c then Some (S (space_run s'))
      else if is_space c then option_map S (match_delimiter s')
      else None
  end.

(** The matcher of the separator string ["="]. *)
Definition match_equals (s : string) : option nat :=
  match s with
  | String c _ => if is_equals c then Some 1 else None
  | EmptyString => None
  end.

(** [s.split(/\s*;\s*/g)] and [s.split("=")] *)
Definition split_delimiter : string -> list string := split match_delimiter.
Definition split_equals : string -> list string := split match_equals.

(** [a[i]] on an array of strings: [undefined] past the end. *)
Definition index (a : list string) (i : nat) : value :=
  match nth_error a i with
  | Some s => VStr s
  | None => VUndefined
  end.

(** ** Plain objects

    An object created by [{}] is its own enumerable data properties in
    creation order.  The one property name that never becomes an own
    property by assignment is [__proto__]: the assignment reaches the
    accessor inherited from [Object.prototype], whose setter ignores any
    value that is neither an object nor [null]. *)
Definition object : Type := list (string * value).

Definition proto : string := "__proto__".

Fixpoint own (k : string) (o : object) : option value :=
  match o with
  | [] => None
  | (k', v) :: o' => if k' =? k then Some v else own k o'
  end.

(** [o[k]] (for an own property; [undefined] otherwise) *)
Definition prop (k : string) (o : object) : value :=
  match own k o with
  | Some v => v
  | None => VUndefined
  end.

Fixpoint put (k : string) (v : value) (o : object) : object :=
  match o with
  | [] => [(k, v)]
  | (k', v') :: o' => if k' =? k then (k', v) :: o' else (k', v') :: put k v o'
  end.

(** [o[k] = v] for a string or [undefined] [v] *)
Definition assign (k : string) (v : value) (o : object) : object :=
  if k =? proto then o else put k v o.

(** *** for-in order

    Own property keys are visited with the array indices first, in
    ascending numeric order, and then the other names in creation order.
    An array index is the canonical decimal numeral of an integer below
    2^32 - 1. *)
Definition is_digit (c : ascii) : bool :=
  let n := nat_of_ascii c in ((48 <=? n) && (n <=? 57))%nat.

Fixpoint digits_value (s : string) (acc : N) : option N :=
  match s with
  | EmptyString => Some acc
  | String c s' =>
      if is_digit c
      then digits_value s' (10 * acc + (N_of_ascii c - 48))%N
      else None
  end.

Definition array_index (s : string) : option N :=
  match s with
  | EmptyString => None
  | String c s' =>
      if Ascii.eqb c "0" && negb (s' =? "") then None
      else match digits_value s 0 with
           | Some n => if (n <? 4294967295)%N then Some n else None
           | None => None
           end
  end.

Fixpoint insert_index (x : N * string) (l : list (N * string)) : list (N * string) :=
  match l with
  | [] => [x]
  | y :: l' => if (fst x <? fst y)%N then x :: l else y :: insert_index x l'
  end.

Fixpoint index_keys (ks : list string) : list (N * string) :=
  match ks with
  | [] => []
  | k :: ks' =>
      match array_index k with
      | Some n => insert_index (n, k) (index_keys ks')
      | None => index_keys ks'
      end
  end.

Definition is_index (k : string) : bool :=
  match array_index k with Some _ => true | None => false end.

Definition for_in_order (ks : list string) : list string :=
  map snd (index_keys ks) ++ filter (fun k => negb (is_index k)) ks.

Definition for_in (o : object) : list string := for_in_order (map fst o).

End JS.

Import JS.

(** ** Text

    Helpers on strings that the store and the statements share. *)
Module Text.

(** The text before the first [sep] and, when there is one, the text
    after it. *)
Fixpoint cut (sep : ascii) (s : string) : string * option string :=
  match s with
  | EmptyString => (EmptyString, None)
  | String c s' =>
      if Ascii.eqb c sep then (EmptyString, Some s')
      else let (a, b) := cut sep s' in (String c a, b)
  end.

(** All the fields between occurrences of [sep]. *)
Fixpoint fields (sep : ascii) (s : string) : list string :=
  match s with
  | EmptyString => [EmptyString]
  | String c s' =>
      if Ascii.eqb c sep then EmptyString :: fields sep s'
      else match fields sep s' with
           | f :: fs => String c f :: fs
           | [] => [String c EmptyString]
           end
  end.

Fixpoint has (p : ascii -> bool) (s : string) : bool :=
  match s with
  | String c s' => p c || has p s'
  | EmptyString => false
  end.

Fixpoint all_chars (p : ascii -> bool) (s : string) : bool :=
  match s with
  | String c s' => p c && all_chars p s'
  | EmptyString => true
  end.

Definition starts_space (s : string) : bool :=
  match s with
  | String c _ => is_space c
  | EmptyString => false
  end.

Fixpoint ends_space (s : string) : bool :=
  match s with
  | String c EmptyString => is_space c
  | String _ s' => ends_space s'
  | EmptyString => false
  end.

(** A key or value that needs no encoding: no [;], no [=] and no white
    space anywhere. *)
Definition plain (s : string) : bool :=
  negb (has (fun c => is_semi c || is_equals c || is_space c) s).

End Text.

Import Text.

(** ** The host property

    [document.cookie] is an accessor: reading it returns a string, assigning
    to it hands a string to the host.  A document is any state with these two
    operations. *)
Record Document (D : Type) : Type := {
  cookie : D -> string;
  cookie_assign : string -> D -> D
}.
Arguments cookie {D} _ _.
Arguments cookie_assign {D} _ _ _.

(** ** The methods of [Cookie] *)
Module Cookie.
Section Methods.
Context {D : Type} (document : Document D).

(** Computations that read and assign [document.cookie]. *)
Definition M (A : Type) : Type := D -> A * D.

Definition ret {A} (a : A) : M A := fun d => (a, d).

Definition bind {A B} (m : M A) (f : A -> M B) : M B :=
  fun d => let (a, d') := m d in f a d'.

Notation "x <- m ;; k" := (bind m (fun x => k))
  (at level 61, m at next level, right associativity).
Notation "m ;;; k" := (bind m (fun _ => k))
  (at level 61, right associativity).

Definition read_cookie : M string :=
  fun d => (cookie document d, d).

Definition write_cookie (s : string) : M unit :=
  fun d => (tt, cookie_assign document s d).

(** A loop whose body runs once per element, in order. *)
Fixpoint for_each {A} (l : list A) (body : A -> M unit) : M unit :=
  match l with
  | [] => ret tt
  | x :: l' => body x ;;; for_each l' body
  end.

(** The loop of [get] over the indices of [keyValuePairs]: the first pair
    whose [pair[0]] is [key] returns its [pair[1]]. *)
Fixpoint get_loop (key : value) (keyValuePairs : list string) : value :=
  match keyValuePairs with
  | [] => VNull
  | x :: rest =>
      let pair := split_equals x in
      if strict_eq (index pair 0) key then index pair 1
      else get_loop key rest
  end.

(** [get] (lines 14-24) *)
Definition get (key : value) : M value :=
  c <- read_cookie ;;
  if negb (truthy (VStr c)) then ret VNull
  else
    c <- read_cookie ;;
    let keyValuePairs := split_delimiter c in
    ret (get_loop key keyValuePairs).

(** The callback of [getAll], applied to one piece:
    [result[pair[0]] = pair[1]]. *)
Definition getAll_step (result : object) (v : string) : object :=
  let pair := split_equals v in
  assign (ToString (index pair 0)) (index pair 1) result.

(** [getAll] (lines 33-42) *)
Definition getAll : M object :=
  c <- read_cookie ;;
  if negb (truthy (VStr c)) then ret []
  else
    let result := [] in
    c <- read_cookie ;;
    ret (fold_left getAll_step (split_delimiter c) result).

(** [set] (lines 56-77) *)
Definition set (key value path expires maxAge domain secure samesite : value)
  : M JS.value :=
  let path := or path (VStr "/") in
  let expires := or expires (VStr "") in
  let maxAge := or maxAge (VStr "") in
  let domain := or domain (VStr "") in
  let secure := or secure (VBool false) in
  let samesite := or samesite (VBool false) in
  oldValue <- get key ;;
  let str := ToString key ++ "=" ++ ToString value ++ ";path=" ++ ToString path ++ ";" in
  let str := if truthy expires then str ++ "expires=" ++ ToString expires ++ ";" else str in
  let str := if truthy maxAge then str ++ "max-age=" ++ ToString maxAge ++ ";" else str in
  let str := if truthy domain then str ++ "domain=" ++ ToString domain ++ ";" else str in
  let str := if truthy secure then str ++ "secure;" else str in
  let str := if truthy samesite then str ++ "samesite;" else str in
  write_cookie str ;;;
  ret oldValue.

(** A call [set(key, value)]: the six options left out are [undefined]. *)
Definition set_default (key value : value) : M JS.value :=
  set key value VUndefined VUndefined VUndefined VUndefined VUndefined VUndefined.

(** [setAsMap] (lines 86-89) *)
Definition setAsMap (object : JS.object) : M unit :=
  for_each (for_in object) (fun key =>
    set_default (VStr key) (prop key object) ;;; ret tt).

(** [setAsArray] (lines 98-112) *)
Definition setAsArray (array : list JS.object) : M unit :=
  for_each array (fun curObject =>
    set (prop "key" curObject)
        (prop "value" curObject)
        (prop "path" curObject)
        (prop "expires" curObject)
        (prop "maxAge" curObject)
        (prop "domain" curObject)
        (prop "secure" curObject)
        (prop "samesite" curObject) ;;;
    ret tt).

(** [zeroDate.toUTCString()], for [zeroDate] a [Date] set to time 0. *)
Definition zeroDate : string := "Thu, 01 Jan 1970 00:00:00 GMT".

(** [unset] (lines 119-125) *)
Definition unset (key : value) : M value :=
  oldValue <- get key ;;
  write_cookie (ToString key ++ "=" ++ ";expires=" ++ zeroDate ++ ";path=/") ;;;
  ret oldValue.

(** [clear] (lines 130-134) *)
Definition clear : M unit :=
  cookies <- getAll ;;
  for_each (for_in cookies) (fun key => unset (VStr key) ;;; ret tt).

End Methods.
End Cookie.

(** ** The reading methods, with what could raise

    Calling [split] on a value that is not a string raises a [TypeError]
    ([undefined] and [null] have no properties, a number or a boolean has no
    such method).  [Checked] runs [get] and [getAll] with each [split] call
    made on the value the code makes it on: [document.cookie], the element
    [keyValuePairs[i]] for each index [i] that [for-in] visits, and the
    element [v] that [forEach] hands to its callback. *)
Module Checked.

Inductive outcome (A : Type) : Type :=
| Returned (a : A)
| Raised.
Arguments Returned {A} _.
Arguments Raised {A}.

(** [receiver.split(separator)] *)
Definition call_split (matcher : string -> option nat) (receiver : value)
  : outcome (list string) :=
  match receiver with
  | VStr s => Returned (split matcher s)
  | _ => Raised
  end.

(** The indices that [for (var i in keyValuePairs)] visits. *)
Definition indices (keyValuePairs : list string) : list nat :=
  seq 0 (length keyValuePairs).

Fixpoint get_loop (key : value) (keyValuePairs : list string) (visit : list nat)
  : outcome value :=
  match visit with
  | [] => Returned VNull
  | i :: rest =>
      match call_split match_equals (index keyValuePairs i) with
      | Raised => Raised
      | Returned p =>
          let pair := p in
          if strict_eq (index pair 0) key then Returned (index pair 1)
          else get_loop key keyValuePairs rest
      end
  end.

Fixpoint getAll_loop (result : object) (elements : list string) : outcome object :=
  match elements with
  | [] => Returned result
  | v :: rest =>
      match call_split match_equals (VStr v) with
      | Raised => Raised
      | Returned p =>
          let pair := p in
          getAll_loop (assign (ToString (index pair 0)) (index pair 1) result) rest
      end
  end.

Section Reads.
Context {D : Type} (document : Document D).

Definition get (key : value) (d : D) : outcome value * D :=
  if negb (truthy (VStr (cookie document d))) then (Returned VNull, d)
  else
    match call_split match_delimiter (VStr (cookie document d)) with
    | Raised => (Raised, d)
    | Returned keyValuePairs =>
        (get_loop key keyValuePairs (indices keyValuePairs), d)
    end.

Definition getAll (d : D) : outcome object * D :=
  if negb (truthy (VStr (cookie document d))) then (Returned [], d)
  else
    match call_split match_delimiter (VStr (cookie document d)) with
    | Raised => (Raised, d)
    | Returned pieces => (getAll_loop [] pieces, d)
    end.

End Reads.
End Checked.

(** ** Two documents *)

(** A document whose store accepts no write (cookies disabled for scripts,
    or a store filled by the server only): the property keeps reading the
    string it holds and an assignment changes nothing. *)
Definition Frozen : Document string := {|
  cookie := fun d => d;
  cookie_assign := fun _ d => d
|}.

(** A document that keeps the strings assigned to it, in order, and reads
    as an empty string: it shows what a method writes. *)
Definition Recorder : Document (list string) := {|
  cookie := fun _ => "";
  cookie_assign := fun s d => (d ++ [s])%list
|}.

(** Modelled from the spec: the host's cookie store behind
    [document.cookie], which is not part of the repository.  The spec
    describes a store of name/value pairs with unique names; reading yields
    the pairs as [name=value] joined by a semicolon and a space; an
    assignment carries one cookie with its attributes and upserts it, or
    deletes it when the attributes say that it has expired.  The assigned
    string is read the way RFC 6265 (5.2, 5.3) reads a Set-Cookie string: the
    text up to the first [;] is the pair, cut at its first [=], both sides
    trimmed of spaces and tabs, a pair without [=] or with an empty name is
    dropped; the rest is the attribute list, of which only [Expires] and
    [Max-Age] decide between storing and deleting, [Max-Age] first.  The
    model keeps one cookie per name: it stands for the cookies of the
    default scope, the ones the library writes with its default options
    ([path=/], no domain), and these are the only writes that the properties
    stated on it make.  A cookie of another path or domain, which a host
    keeps apart from these and which a [path=/] write neither replaces nor
    deletes, has no place in it: [Path], [Domain], [Secure] and [SameSite]
    are read and not used, and nothing is stated here about a write that
    carries them.  The host's date parser and clock are parameters. *)
Module Browser.

Definition jar : Type := list (string * string).

Definition is_wsp (c : ascii) : bool :=
  (Ascii.eqb c " " || (nat_of_ascii c =? 9)%nat).

Fixpoint ltrim (s : string) : string :=
  match s with
  | String c s' => if is_wsp c then ltrim s' else s
  | EmptyString => EmptyString
  end.

Fixpoint rtrim (s : string) : string :=
  match s with
  | String c s' =>
      match rtrim s' with
      | EmptyString => if is_wsp c then EmptyString else String c EmptyString
      | r => String c r
      end
  | EmptyString => EmptyString
  end.

Definition trim (s : string) : string := rtrim (ltrim s).

Definition lower (c : ascii) : ascii :=
  let n := nat_of_ascii c in
  if ((65 <=? n) && (n <=? 90))%nat then ascii_of_nat (n + 32) else c.

Fixpoint lowercase (s : string) : string :=
  match s with
  | String c s' => String (lower c) (lowercase s')
  | EmptyString => EmptyString
  end.

(** One [cookie-av]: the attribute name in lower case, and its value. *)
Definition attribute (av : string) : string * string :=
  match cut "=" av with
  | (n, Some v) => (lowercase (trim n), trim v)
  | (n, None) => (lowercase (trim n), EmptyString)
  end.

Definition attributes (unparsed : option string) : list (string * string) :=
  match unparsed with
  | Some rest => map attribute (fields ";" rest)
  | None => []
  end.

(** [Max-Age]: a value that is not an optional minus sign and digits is
    ignored; otherwise the cookie has expired when the number is at most
    zero. *)
Definition max_age_expired (v : string) : option bool :=
  match v with
  | EmptyString => None
  | String c r =>
      if (is_digit c || Ascii.eqb c "-") && all_chars is_digit r
      then Some (Ascii.eqb c "-" || all_chars (fun d => Ascii.eqb d "0") v)
      else None
  end.

(** The last usable attribute of a kind decides. *)
Fixpoint last_verdict (name : string) (verdict : string -> option bool)
         (avs : list (string * string)) : option bool :=
  match avs with
  | [] => None
  | (n, v) :: avs' =>
      match last_verdict name verdict avs' with
      | Some b => Some b
      | None => if n =? name then verdict v else None
      end
  end.

Fixpoint upsert (name value : string) (j : jar) : jar :=
  match j with
  | [] => [(name, value)]
  | (n, v) :: j' =>
      if n =? name then (n, value) :: j' else (n, v) :: upsert name value j'
  end.

Definition remove (name : string) (j : jar) : jar :=
  filter (fun e => negb (fst e =? name)) j.

Definition render (e : string * string) : string := fst e ++ "=" ++ snd e.

(** Reading [document.cookie]. *)
Definition read (j : jar) : string := String.concat "; " (map render j).

Section Clock.
(** The host's date parser (milliseconds since the epoch) and its
    current time. *)
Variable parse_date : string -> option Z.
Variable now : Z.

Definition expires_expired (v : string) : option bool :=
  match parse_date v with
  | Some t => Some (t <? now)%Z
  | None => None
  end.

Definition expired (avs : list (string * string)) : bool :=
  match last_verdict "max-age" max_age_expired avs with
  | Some b => b
  | None =>
      match last_verdict "expires" expires_expired avs with
      | Some b => b
      | None => false
      end
  end.

(** Assignment to [document.cookie]. *)
Definition write (s : string) (j : jar) : jar :=
  let (nv, unparsed) := cut ";" s in
  match cut "=" nv with
  | (_, None) => j
  | (n, Some v) =>
      let name := trim n in
      let value := trim v in
      if name =? "" then j
      else if expired (attributes unparsed) then remove name j
      else upsert name value j
  end.

Definition document : Document jar := {|
  cookie := read;
  cookie_assign := write
|}.
End Clock.

(** Stored names and values that the pieces of [read] give back as they
    are: a name is not empty, has no [;] and no [=] and no white space at
    either end; a value has no [;] and no white space at either end. *)
Definition name_ok (n : string) : bool :=
  negb (n =? "") && negb (has is_semi n) && negb (has is_equals n)
  && negb (starts_space n) && negb (ends_space n).

Definition value_ok (v : string) : bool :=
  negb (has is_semi v) && negb (starts_space v) && negb (ends_space v).

Definition entry_ok (e : string * string) : bool :=
  name_ok (fst e) && value_ok (snd e).

Definition jar_ok (j : jar) : bool := forallb entry_ok j.

End Browser.

(** The host's parameters for worked examples: a date parser that knows
    the one date [unset] writes, and a clock one second past the epoch. *)
Definition parse_epoch (s : string) : option Z :=
  if s =? Cookie.zeroDate then Some 0%Z else None.

Definition example_store : Document Browser.jar := Browser.document parse_epoch 1000.

(** ** The reading the spec describes

    The spec has every piece cut at its first [=] into a name and a value,
    the value being all that follows, and has a piece without [=] skipped.
    [Described.get] and [Described.getAll] follow these words; they are what
    the methods are compared with. *)
Module Described.

Fixpoint get (key : string) (pieces : list string) : option string :=
  match pieces with
  | [] => None
  | x :: rest =>
      match cut "=" x with
      | (name, Some v) => if name =? key then Some v else get key rest
      | (_, None) => get key rest
      end
  end.

Definition getAll_step (result : object) (x : string) : object :=
  match cut "=" x with
  | (name, Some v) => put name (VStr v) result
  | (_, None) => result
  end.

Definition getAll (pieces : list string) : object :=
  fold_left getAll_step pieces [].

End Described.

(** The string the spec gives for a write:
    [key=value;path=<path>;] and then, each only when present,
    [expires=..;], [max-age=..;], [domain=..;], [secure;], [samesite;]. *)
Definition attribute_string
  (key value path expires maxAge domain secure samesite : JS.value) : string :=
  ToString key ++ "=" ++ ToString value
  ++ ";path=" ++ (if truthy path then ToString path else "/") ++ ";"
  ++ (if truthy expires then "expires=" ++ ToString expires ++ ";" else "")
  ++ (if truthy maxAge then "max-age=" ++ ToString maxAge ++ ";" else "")
  ++ (if truthy domain then "domain=" ++ ToString domain ++ ";" else "")
  ++ (if truthy secure then "secure;" else "")
  ++ (if truthy samesite then "samesite;" else "").

(** What [set] keeps of an option: a falsy argument counts as one that was
    not passed. *)
Definition passed (option : value) : value :=
  if truthy option then option else VUndefined.

(** The name and the value that the methods take from one piece:
    [pair[0]] and [pair[1]] of [piece.split("=")]. *)
Definition name_of (piece : string) : value := index (split_equals piece) 0.
Definition value_of (piece : string) : value := index (split_equals piece) 1.

(** ** Shapes of what the methods read and write *)

(** A text with no [;] and no [=]. *)
Definition tidy (s : string) : bool :=
  negb (has is_semi s) && negb (has is_equals s).

(** What [pair[1]] can be: [undefined], or a text with no [;] and no [=]. *)
Definition tidy_value (v : value) : bool :=
  match v with
  | VUndefined => true
  | VStr s => tidy s
  | _ => false
  end.

(** An object whose keys are non-empty plain texts and whose values are
    plain strings: what [setAsMap] can store without encoding. *)
Definition plain_object (o : object) : bool :=
  forallb (fun e =>
             plain (fst e) && negb (fst e =? "")
             && match snd e with VStr s => plain s | _ => false end) o.

(** An entry of [setAsArray]'s array that carries a non-empty plain key,
    a plain value and no option (each option absent or falsy). *)
Definition simple_entry (o : object) : bool :=
  match prop "key" o, prop "value" o with
  | VStr k, VStr v => plain k && negb (k =? "") && plain v
  | _, _ => false
  end
  && negb (truthy (prop "path" o)) && negb (truthy (prop "expires" o))
  && negb (truthy (prop "maxAge" o)) && negb (truthy (prop "domain" o))
  && negb (truthy (prop "secure" o)) && negb (truthy (prop "samesite" o)).

(** An entry of [setAsArray]'s array, and an object given to [setAsMap],
    whose numbers are all in the safe range. *)
Definition exact_entry (o : object) : bool :=
  exact (prop "key" o) && exact (prop "value" o) && exact (prop "path" o)
  && exact (prop "expires" o) && exact (prop "maxAge" o) && exact (prop "domain" o)
  && exact (prop "secure" o) && exact (prop "samesite" o).

Definition exact_object (o : object) : bool :=
  forallb (fun e => exact (snd e)) o.

(* ================================================================== *)
(** * Part II: properties *)
(* ================================================================== *)

(** ** The definitions at work *)

Example split_delimiter_spaces :
  split_delimiter "a=1; b=2;c=3" = ["a=1"; "b=2"; "c=3"].
Proof. reflexivity. Qed.

Example split_delimiter_empty_pieces :
  split_delimiter "a ;  ; b;" = ["a"; ""; "b"; ""].
Proof. reflexivity. Qed.

Example split_delimiter_keeps_outer_spaces :
  split_delimiter "  a b  " = ["  a b  "].
Proof. reflexivity. Qed.

Example split_of_empty :
  split_delimiter "" = [""] /\ split_equals "" = [""].
Proof. split; reflexivity. Qed.

Example split_equals_every :
  split_equals "a=b=c" = ["a"; "b"; "c"] /\ split_equals "abc" = ["abc"]
  /\ split_equals "a=" = ["a"; ""] /\ split_equals "=" = [""; ""].
Proof. repeat split; reflexivity. Qed.

Example ToString_numbers :
  ToString (VNum 0) = "0" /\ ToString (VNum 3600) = "3600"
  /\ ToString (VNum (-50)) = "-50".
Proof. repeat split; reflexivity. Qed.

Example for_in_indices_first :
  for_in_order ["b"; "10"; "9"; "01"; "a"; "0"] = ["0"; "9"; "10"; "b"; "01"; "a"].
Proof. reflexivity. Qed.

Example store_upserts_in_place :
  cookie_assign example_store "a=3; Path=/" [("a", "1"); ("b", "2")]
    = [("a", "3"); ("b", "2")]
  /\ cookie example_store [("a", "3"); ("b", "2")] = "a=3; b=2".
Proof. split; reflexivity. Qed.

Example store_deletes_expired :
  cookie_assign example_store "a=; Max-Age=0" [("a", "1"); ("b", "2")] = [("b", "2")]
  /\ cookie_assign example_store "a=;expires=Thu, 01 Jan 1970 00:00:00 GMT;path=/"
       [("a", "1"); ("b", "2")] = [("b", "2")].
Proof. split; reflexivity. Qed.

Example store_drops_nameless :
  cookie_assign example_store "abc" [("b", "2")] = [("b", "2")]
  /\ cookie_assign example_store "=abc" [("b", "2")] = [("b", "2")].
Proof. split; reflexivity. Qed.

Example unset_writes_one_string :
  Cookie.unset Recorder (VStr "a") [] =
    (VNull, ["a=;expires=Thu, 01 Jan 1970 00:00:00 GMT;path=/"]).
Proof. reflexivity. Qed.

Example getAll_enumerates_indices_first :
  for_in (fst (Cookie.getAll example_store [("b", "1"); ("10", "2"); ("9", "3")]))
    = ["9"; "10"; "b"].
Proof. reflexivity. Qed.

Example exact_is_the_safe_range :
  exact (VNum 9007199254740991) = true /\ exact (VNum (-9007199254740991)) = true
  /\ exact (VNum 9007199254740992) = false.
Proof. repeat split; reflexivity. Qed.

(** ** Strings *)

Lemma append_nil_r (s : string) : s ++ "" = s.
Proof. induction s as [|c s IH]; simpl; [reflexivity | now rewrite IH]. Qed.

Lemma append_assoc (s t u : string) : (s ++ t) ++ u = s ++ (t ++ u).
Proof. induction s as [|c s IH]; simpl; [reflexivity | now rewrite IH]. Qed.

Lemma append_eq_nil (s t : string) : s ++ t = "" -> s = "" /\ t = "".
Proof. destruct s; simpl; [auto | discriminate]. Qed.

Lemma has_append p (s t : string) : has p (s ++ t) = has p s || has p t.
Proof.
  induction s as [|c s IH]; simpl; [reflexivity|].
  now rewrite IH, orb_assoc.
Qed.

Lemma has_weaken (p q : ascii -> bool) (s : string) :
  (forall c, p c = true -> q c = true) -> has q s = false -> has p s = false.
Proof.
  intros Hpq. induction s as [|c s IH]; simpl; [reflexivity|].
  intros H. apply orb_false_iff in H as [Hc Hs].
  rewrite (IH Hs), orb_false_r.
  destruct (p c) eqn:E; [|reflexivity]. apply Hpq in E. congruence.
Qed.

Lemma ends_space_append (s t : string) :
  t <> "" -> ends_space (s ++ t) = ends_space t.
Proof.
  intros Ht. induction s as [|c s IH]; [reflexivity|].
  cbn [append ends_space]. rewrite IH.
  destruct (s ++ t) eqn:E; [|reflexivity].
  apply append_eq_nil in E as [_ E]. contradiction.
Qed.

Lemma starts_space_append (s t : string) :
  s <> "" -> starts_space (s ++ t) = starts_space s.
Proof. destruct s; [contradiction | reflexivity]. Qed.

Lemma ends_space_cons (c : ascii) (s : string) :
  ends_space (String c s) = false -> ends_space s = false.
Proof. destruct s; [reflexivity | auto]. Qed.

Lemma has_no_space_ends (s : string) :
  has is_space s = false -> ends_space s = false.
Proof.
  induction s as [|c s IH]; [reflexivity|]. simpl.
  intros H. apply orb_false_iff in H as [Hc Hs].
  destruct s; [exact Hc | exact (IH Hs)].
Qed.

Lemma has_no_space_starts (s : string) :
  has is_space s = false -> starts_space s = false.
Proof.
  destruct s; [reflexivity|]. simpl. intros H.
  now apply orb_false_iff in H as [Hc _].
Qed.

(** ** [cut] *)

Lemma cut_none (sep : ascii) (s : string) :
  has (fun c => Ascii.eqb c sep) s = false -> cut sep s = (s, None).
Proof.
  induction s as [|c s IH]; simpl; [reflexivity|].
  intros H. apply orb_false_iff in H as [Hc Hs].
  now rewrite Hc, (IH Hs).
Qed.

Lemma cut_append (sep : ascii) (s t : string) :
  has (fun c => Ascii.eqb c sep) s = false ->
  cut sep (s ++ String sep t) = (s, Some t).
Proof.
  induction s as [|c s IH]; simpl.
  - now rewrite Ascii.eqb_refl.
  - intros H. apply orb_false_iff in H as [Hc Hs].
    now rewrite Hc, (IH Hs).
Qed.

Lemma cut_fst_clean (sep : ascii) (s : string) :
  has (fun c => Ascii.eqb c sep) (fst (cut sep s)) = false.
Proof.
  induction s as [|c s IH]; simpl; [reflexivity|].
  destruct (Ascii.eqb c sep) eqn:E; [reflexivity|].
  destruct (cut sep s) as [a b]. simpl in *. now rewrite E, IH.
Qed.

(** A string is its first field, and what [cut] leaves after the
    separator. *)
Lemma cut_spec (sep : ascii) (s : string) :
  match cut sep s with
  | (a, Some r) => s = a ++ String sep r
  | (a, None) => s = a
  end.
Proof.
  induction s as [|c s IH]; simpl; [reflexivity|].
  destruct (Ascii.eqb c sep) eqn:E.
  - apply Ascii.eqb_eq in E. now subst.
  - destruct (cut sep s) as [a [r|]]; simpl; now rewrite IH at 1.
Qed.

(** ** [split("=")] *)

Lemma split_equals_loop (s : string) : forall cur,
  split_loop match_equals s 0 cur =
  match cut "=" s with
  | (a, None) => [cur ++ a]
  | (a, Some r) => (cur ++ a) :: split_loop match_equals r 0 ""
  end.
Proof.
  induction s as [|c s IH]; intros cur.
  - simpl. now rewrite append_nil_r.
  - cbn [split_loop match_equals cut]. unfold is_equals.
    destruct (Ascii.eqb c "=").
    + now rewrite append_nil_r.
    + rewrite IH. destruct (cut "=" s) as [a [r|]];
        now rewrite append_assoc.
Qed.

Lemma split_equals_cut (s : string) :
  split_equals s =
  match cut "=" s with
  | (a, None) => [a]
  | (a, Some r) => a :: split_equals r
  end.
Proof.
  unfold split_equals, split. rewrite split_equals_loop.
  now destruct (cut "=" s) as [a [r|]].
Qed.

(** [pair[0]] is the text before the first [=], or the whole piece. *)
Lemma name_of_cut (piece : string) :
  name_of piece = VStr (fst (cut "=" piece)).
Proof.
  unfold name_of. rewrite split_equals_cut.
  now destruct (cut "=" piece) as [a [r|]].
Qed.

(** [pair[1]] is the text between the first [=] and the second, or
    [undefined] when the piece has no [=]. *)
Lemma value_of_cut (piece : string) :
  value_of piece =
  match snd (cut "=" piece) with
  | Some r => VStr (fst (cut "=" r))
  | None => VUndefined
  end.
Proof.
  unfold value_of. rewrite split_equals_cut.
  destruct (cut "=" piece) as [a [r|]]; [|reflexivity].
  cbn [snd]. change (index (a :: split_equals r) 1) with (name_of r).
  apply name_of_cut.
Qed.

(** ** [split(/\s*;\s*/g)] on what the store prints *)

(** No delimiter starts inside a text that has no [;] and does not end in
    white space. *)
Lemma match_delimiter_solid (s rest : string) :
  has is_semi s = false -> ends_space s = false -> s <> "" ->
  match_delimiter (s ++ rest) = None.
Proof.
  induction s as [|c s IH]; [contradiction|].
  intros Hsemi Hend _. simpl in Hsemi.
  apply orb_false_iff in Hsemi as [Hc Hs].
  cbn [append match_delimiter]. rewrite Hc.
  destruct (is_space c) eqn:Esp; [|reflexivity].
  destruct s as [|c' s'].
  - simpl in Hend. congruence.
  - rewrite IH; [reflexivity | exact Hs | exact Hend | discriminate].
Qed.

Lemma split_loop_solid (s : string) :
  has is_semi s = false -> ends_space s = false ->
  forall rest cur,
    split_loop match_delimiter (s ++ rest) 0 cur =
    split_loop match_delimiter rest 0 (cur ++ s).
Proof.
  induction s as [|c s IH]; intros Hsemi Hend rest cur.
  - simpl. now rewrite append_nil_r.
  - pose proof (match_delimiter_solid (String c s) rest Hsemi Hend) as Hm.
    cbn [append] in *. cbn [split_loop]. rewrite Hm by discriminate.
    simpl in Hsemi. apply orb_false_iff in Hsemi as [_ Hs].
    rewrite (IH Hs (ends_space_cons _ _ Hend)).
    now rewrite append_assoc.
Qed.

Lemma space_run_start (s : string) : starts_space s = false -> space_run s = 0.
Proof. destruct s; simpl; [reflexivity|]. now intros ->. Qed.

Lemma split_loop_delimiter (next cur : string) :
  starts_space next = false ->
  split_loop match_delimiter ("; " ++ next) 0 cur =
  cur :: split_loop match_delimiter next 0 "".
Proof.
  intros Hn. cbn. now rewrite (space_run_start _ Hn).
Qed.

Lemma name_ok_inv (n : string) :
  Browser.name_ok n = true ->
  n <> "" /\ has is_semi n = false /\ has is_equals n = false /\
  starts_space n = false /\ ends_space n = false.
Proof.
  unfold Browser.name_ok. intros H.
  apply andb_true_iff in H as [H H5]. apply andb_true_iff in H as [H H4].
  apply andb_true_iff in H as [H H3]. apply andb_true_iff in H as [H1 H2].
  apply negb_true_iff in H1, H2, H3, H4, H5.
  repeat split; try assumption. intros ->. discriminate.
Qed.

Lemma value_ok_inv (v : string) :
  Browser.value_ok v = true ->
  has is_semi v = false /\ starts_space v = false /\ ends_space v = false.
Proof.
  unfold Browser.value_ok. intros H.
  apply andb_true_iff in H as [H H3]. apply andb_true_iff in H as [H1 H2].
  apply negb_true_iff in H1, H2, H3. auto.
Qed.

Lemma render_solid (e : string * string) :
  Browser.entry_ok e = true ->
  has is_semi (Browser.render e) = false /\
  ends_space (Browser.render e) = false /\
  starts_space (Browser.render e) = false /\
  Browser.render e <> "".
Proof.
  destruct e as [n v]. unfold Browser.entry_ok, Browser.render. cbn [fst snd].
  intros H. apply andb_true_iff in H as [Hn Hv].
  apply name_ok_inv in Hn as (Hne & Hn1 & Hn2 & Hn3 & Hn4).
  apply value_ok_inv in Hv as (Hv1 & Hv2 & Hv3).
  repeat split.
  - rewrite has_append. cbn [append has]. now rewrite Hn1, Hv1.
  - rewrite ends_space_append by discriminate.
    destruct v; [reflexivity | assumption].
  - now rewrite starts_space_append.
  - intros E. now apply append_eq_nil in E as [E _].
Qed.

Lemma read_cons (e : string * string) (j : Browser.jar) :
  j <> [] ->
  Browser.read (e :: j) = Browser.render e ++ "; " ++ Browser.read j.
Proof. destruct j; [contradiction | reflexivity]. Qed.

Lemma read_starts (j : Browser.jar) :
  Browser.jar_ok j = true -> starts_space (Browser.read j) = false.
Proof.
  destruct j as [|e j]; [reflexivity|]. intros H.
  apply andb_true_iff in H as [He _].
  destruct (render_solid e He) as (_ & _ & Hst & Hne).
  destruct j as [|e' j].
  - exact Hst.
  - rewrite read_cons by discriminate. now rewrite starts_space_append.
Qed.

(** The pieces of what the store prints are its entries, printed. *)
Lemma split_read (j : Browser.jar) :
  Browser.jar_ok j = true -> j <> [] ->
  split_delimiter (Browser.read j) = map Browser.render j.
Proof.
  unfold split_delimiter, split.
  induction j as [|e j IH]; [contradiction|]. intros Hok _.
  pose proof Hok as Hok'.
  apply andb_true_iff in Hok' as [He Hj].
  destruct (render_solid e He) as (Hsemi & Hend & _ & _).
  destruct j as [|e' j].
  - cbn [Browser.read map String.concat].
    rewrite <- (append_nil_r (Browser.render e)) at 1.
    now rewrite split_loop_solid.
  - rewrite read_cons by discriminate.
    rewrite split_loop_solid by assumption.
    rewrite split_loop_delimiter by now apply read_starts.
    cbn [append map]. f_equal. apply IH; [exact Hj | discriminate].
Qed.

Lemma read_nonempty (j : Browser.jar) :
  Browser.jar_ok j = true -> j <> [] -> Browser.read j <> "".
Proof.
  destruct j as [|e j]; [contradiction|]. intros H _.
  apply andb_true_iff in H as [He _].
  destruct (render_solid e He) as (_ & _ & _ & Hne).
  destruct j as [|e' j]; [exact Hne|].
  rewrite read_cons by discriminate.
  intros E. now apply append_eq_nil in E as [E _].
Qed.

(** ** The two loops over the pieces *)

Lemma entry_name_clean (e : string * string) :
  Browser.entry_ok e = true -> has is_equals (fst e) = false.
Proof.
  unfold Browser.entry_ok. intros H. apply andb_true_iff in H as [H _].
  now apply name_ok_inv in H.
Qed.

Lemma name_of_render (e : string * string) :
  Browser.entry_ok e = true -> name_of (Browser.render e) = VStr (fst e).
Proof.
  intros He. rewrite name_of_cut. unfold Browser.render.
  cbn [append]. now rewrite (cut_append "=" _ _ (entry_name_clean e He)).
Qed.

Lemma value_of_render (e : string * string) :
  Browser.entry_ok e = true ->
  value_of (Browser.render e) = VStr (fst (cut "=" (snd e))).
Proof.
  intros He. rewrite value_of_cut. unfold Browser.render.
  cbn [append]. now rewrite (cut_append "=" _ _ (entry_name_clean e He)).
Qed.

(** [get]'s loop over the printed store is a lookup of the first entry of
    that name. *)
Lemma get_loop_read (k : string) (j : Browser.jar) :
  Browser.jar_ok j = true ->
  Cookie.get_loop (VStr k) (map Browser.render j) =
  match find (fun e => fst e =? k) j with
  | Some e => VStr (fst (cut "=" (snd e)))
  | None => VNull
  end.
Proof.
  induction j as [|e j IH]; [reflexivity|]. intros H.
  apply andb_true_iff in H as [He Hj].
  cbn [map Cookie.get_loop find].
  fold (name_of (Browser.render e)). fold (value_of (Browser.render e)).
  rewrite (name_of_render e He), (value_of_render e He).
  cbn [strict_eq]. destruct (fst e =? k); [reflexivity | exact (IH Hj)].
Qed.

(** ** The methods, run

    What each method returns and the document it leaves, for any
    document. *)
Section Runs.
Context {D : Type} (document : Document D).

Lemma get_run (key : value) (d : D) :
  Cookie.get document key d =
  (if cookie document d =? "" then VNull
   else Cookie.get_loop key (split_delimiter (cookie document d)), d).
Proof.
  unfold Cookie.get, Cookie.bind, Cookie.read_cookie, Cookie.ret.
  cbn [truthy]. now destruct (cookie document d =? "").
Qed.

Lemma getAll_run (d : D) :
  Cookie.getAll document d =
  (if cookie document d =? "" then []
   else fold_left Cookie.getAll_step (split_delimiter (cookie document d)) [], d).
Proof.
  unfold Cookie.getAll, Cookie.bind, Cookie.read_cookie, Cookie.ret.
  cbn [truthy]. now destruct (cookie document d =? "").
Qed.

Lemma set_run (key value path expires maxAge domain secure samesite : JS.value)
      (d : D) :
  Cookie.set document key value path expires maxAge domain secure samesite d =
  (fst (Cookie.get document key d),
   cookie_assign document
     (attribute_string key value path expires maxAge domain secure samesite) d).
Proof.
  unfold Cookie.set, Cookie.bind, Cookie.write_cookie, Cookie.ret.
  rewrite get_run. cbn [fst]. f_equal. f_equal.
  unfold attribute_string, or.
  destruct (truthy path) eqn:Ep, (truthy expires) eqn:Ee,
    (truthy maxAge) eqn:Em, (truthy domain) eqn:Ed,
    (truthy secure) eqn:Es, (truthy samesite) eqn:Ess;
    rewrite ?Ep, ?Ee, ?Em, ?Ed, ?Es, ?Ess; cbn [truthy String.eqb negb];
    repeat rewrite append_assoc; cbn [append]; rewrite ?append_nil_r;
    reflexivity.
Qed.

Lemma unset_run (key : value) (d : D) :
  Cookie.unset document key d =
  (fst (Cookie.get document key d),
   cookie_assign document
     (ToString key ++ "=;expires=Thu, 01 Jan 1970 00:00:00 GMT;path=/") d).
Proof.
  unfold Cookie.unset, Cookie.bind, Cookie.write_cookie, Cookie.ret.
  now rewrite get_run.
Qed.

Lemma for_each_run {A} (body : A -> Cookie.M unit) (l : list A) (d : D) :
  Cookie.for_each l body d = (tt, fold_left (fun d x => snd (body x d)) l d).
Proof.
  revert d. induction l as [|x l IH]; intros d; [reflexivity|].
  cbn [Cookie.for_each fold_left]. unfold Cookie.bind at 1.
  destruct (body x d) as [u d'] eqn:E. cbn [snd]. apply IH.
Qed.
End Runs.

(** ** The store *)

Lemma wsp_is_space (c : ascii) : Browser.is_wsp c = true -> is_space c = true.
Proof.
  unfold Browser.is_wsp. intros H. apply orb_true_iff in H as [H|H].
  - apply Ascii.eqb_eq in H. now subst.
  - apply Nat.eqb_eq in H. unfold is_space. now rewrite H.
Qed.

Lemma ltrim_id (s : string) : starts_space s = false -> Browser.ltrim s = s.
Proof.
  destruct s as [|c s]; [reflexivity|]. simpl. intros H.
  destruct (Browser.is_wsp c) eqn:E; [|reflexivity].
  apply wsp_is_space in E. congruence.
Qed.

Lemma rtrim_id (s : string) : ends_space s = false -> Browser.rtrim s = s.
Proof.
  induction s as [|c s IH]; [reflexivity|]. intros H.
  cbn [Browser.rtrim]. rewrite (IH (ends_space_cons _ _ H)).
  destruct s as [|c' s']; [|reflexivity].
  simpl in H. destruct (Browser.is_wsp c) eqn:E; [|reflexivity].
  apply wsp_is_space in E. congruence.
Qed.

Lemma trim_id (s : string) :
  starts_space s = false -> ends_space s = false -> Browser.trim s = s.
Proof.
  intros H1 H2. unfold Browser.trim. rewrite (ltrim_id _ H1). now apply rtrim_id.
Qed.

Lemma upsert_ok (k v : string) (j : Browser.jar) :
  Browser.jar_ok j = true -> Browser.entry_ok (k, v) = true ->
  Browser.jar_ok (Browser.upsert k v j) = true.
Proof.
  intros Hj He. induction j as [|[n w] j IH]; simpl.
  - now rewrite He.
  - simpl in Hj. apply andb_true_iff in Hj as [Hn Hj].
    destruct (n =? k) eqn:E.
    + apply String.eqb_eq in E. subst n. simpl. now rewrite He, Hj.
    + simpl. now rewrite Hn, (IH Hj).
Qed.

Lemma find_upsert (k v : string) (j : Browser.jar) :
  find (fun e => fst e =? k) (Browser.upsert k v j) = Some (k, v).
Proof.
  induction j as [|[n w] j IH]; simpl.
  - now rewrite String.eqb_refl.
  - destruct (n =? k) eqn:E; simpl; rewrite E; [|exact IH].
    apply String.eqb_eq in E. now subst.
Qed.

Lemma remove_ok (k : string) (j : Browser.jar) :
  Browser.jar_ok j = true -> Browser.jar_ok (Browser.remove k j) = true.
Proof.
  induction j as [|e j IH]; [reflexivity|]. simpl. intros H.
  apply andb_true_iff in H as [He Hj].
  destruct (negb (fst e =? k)); simpl; [rewrite He|]; auto.
Qed.

Lemma find_remove (k : string) (j : Browser.jar) :
  find (fun e => fst e =? k) (Browser.remove k j) = None.
Proof.
  induction j as [|e j IH]; [reflexivity|]. simpl.
  destruct (fst e =? k) eqn:E; simpl; [|rewrite E]; exact IH.
Qed.

Lemma find_absent (k : string) (j : Browser.jar) :
  ~ In k (map fst j) -> find (fun e => fst e =? k) j = None.
Proof.
  induction j as [|e j IH]; [reflexivity|]. simpl. intros H.
  destruct (fst e =? k) eqn:E.
  - apply String.eqb_eq in E. tauto.
  - apply IH. tauto.
Qed.

Lemma plain_inv (s : string) :
  plain s = true ->
  has is_semi s = false /\ has is_equals s = false /\ has is_space s = false.
Proof.
  unfold plain. intros H. apply negb_true_iff in H.
  repeat split; (eapply has_weaken; [|exact H]); intros c Hc; cbv beta;
    rewrite Hc; now rewrite ?orb_true_r.
Qed.

Lemma plain_name_ok (k : string) :
  plain k = true -> k <> "" -> Browser.name_ok k = true.
Proof.
  intros H Hne. apply plain_inv in H as (H1 & H2 & H3).
  unfold Browser.name_ok.
  rewrite H1, H2, (has_no_space_starts _ H3), (has_no_space_ends _ H3).
  apply String.eqb_neq in Hne. now rewrite Hne.
Qed.

Lemma plain_value_ok (v : string) : plain v = true -> Browser.value_ok v = true.
Proof.
  intros H. apply plain_inv in H as (H1 & H2 & H3).
  unfold Browser.value_ok.
  now rewrite H1, (has_no_space_starts _ H3), (has_no_space_ends _ H3).
Qed.

Section Store.
Variable parse_date : string -> option Z.
Variable now : Z.

Let document := Browser.document parse_date now.

(** A write with the default options stores the pair. *)
Lemma write_default (k v : string) (j : Browser.jar) :
  Browser.entry_ok (k, v) = true ->
  Browser.write parse_date now (k ++ "=" ++ v ++ ";path=/;") j =
  Browser.upsert k v j.
Proof.
  unfold Browser.entry_ok. cbn [fst snd]. intros H.
  apply andb_true_iff in H as [Hn Hv].
  apply name_ok_inv in Hn as (Hne & Hn1 & Hn2 & Hn3 & Hn4).
  apply value_ok_inv in Hv as (Hv1 & Hv2 & Hv3).
  unfold Browser.write.
  replace (k ++ "=" ++ v ++ ";path=/;")
    with ((k ++ "=" ++ v) ++ String ";" "path=/;")
    by (now rewrite !append_assoc).
  assert (Hs : has is_semi (k ++ "=" ++ v) = false)
    by (rewrite has_append; cbn [append has]; now rewrite Hn1, Hv1).
  rewrite (cut_append ";" _ _ Hs).
  cbn [append]. rewrite (cut_append "=" k v Hn2).
  rewrite !trim_id by assumption.
  apply String.eqb_neq in Hne. rewrite Hne.
  reflexivity.
Qed.

Hypothesis epoch_parsed : parse_date Cookie.zeroDate = Some 0%Z.
Hypothesis epoch_passed : (0 < now)%Z.

(** The write of [unset] deletes the cookie. *)
Lemma write_expired (k : string) (j : Browser.jar) :
  Browser.name_ok k = true ->
  Browser.write parse_date now
    (k ++ "=;expires=Thu, 01 Jan 1970 00:00:00 GMT;path=/") j =
  Browser.remove k j.
Proof.
  intros Hn. apply name_ok_inv in Hn as (Hne & Hn1 & Hn2 & Hn3 & Hn4).
  unfold Browser.write.
  replace (k ++ "=;expires=Thu, 01 Jan 1970 00:00:00 GMT;path=/")
    with ((k ++ "=") ++ String ";" "expires=Thu, 01 Jan 1970 00:00:00 GMT;path=/")
    by (now rewrite !append_assoc).
  assert (Hs : has is_semi (k ++ "=") = false)
    by (rewrite has_append; cbn [append has]; now rewrite Hn1).
  rewrite (cut_append ";" _ _ Hs).
  rewrite (cut_append "=" k "" Hn2).
  rewrite trim_id by assumption.
  apply String.eqb_neq in Hne. rewrite Hne.
  replace (Browser.attributes (Some "expires=Thu, 01 Jan 1970 00:00:00 GMT;path=/"))
    with [("expires", Cookie.zeroDate); ("path", "/")]
    by (vm_compute; reflexivity).
  unfold Browser.expired.
  replace (Browser.last_verdict "max-age" Browser.max_age_expired
             [("expires", Cookie.zeroDate); ("path", "/")])
    with (@None bool) by (vm_compute; reflexivity).
  cbn [Browser.last_verdict String.eqb Ascii.eqb Bool.eqb].
  unfold Browser.expires_expired. rewrite epoch_parsed.
  apply Z.ltb_lt in epoch_passed. now rewrite epoch_passed.
Qed.
End Store.

(** ** A write followed by a read, on the store *)

Lemma attribute_string_default (k v : string) :
  attribute_string (VStr k) (VStr v)
    VUndefined VUndefined VUndefined VUndefined VUndefined VUndefined =
  k ++ "=" ++ v ++ ";path=/;".
Proof. reflexivity. Qed.

Section OnTheStore.
Variable parse_date : string -> option Z.
Variable now : Z.

Let document := Browser.document parse_date now.

(** On the store, [get] is a lookup of the first entry of that name; of
    its value it returns the part before the first [=]. *)
Lemma get_stored (k : string) (j : Browser.jar) :
  Browser.jar_ok j = true ->
  fst (Cookie.get document (VStr k) j) =
  match find (fun e => fst e =? k) j with
  | Some e => VStr (fst (cut "=" (snd e)))
  | None => VNull
  end.
Proof.
  intros Hok. rewrite get_run. cbn [fst cookie document Browser.document].
  destruct j as [|e j]; [reflexivity|].
  assert (Hne : e :: j <> []) by discriminate.
  pose proof (read_nonempty _ Hok Hne) as Hr.
  apply String.eqb_neq in Hr. rewrite Hr.
  rewrite (split_read _ Hok Hne). now apply get_loop_read.
Qed.

Lemma set_default_stored (k v : string) (j : Browser.jar) :
  Browser.entry_ok (k, v) = true ->
  snd (Cookie.set_default document (VStr k) (VStr v) j) = Browser.upsert k v j.
Proof.
  intros He. unfold Cookie.set_default. rewrite set_run. cbn [snd].
  rewrite attribute_string_default.
  cbn [cookie_assign document Browser.document].
  now apply write_default.
Qed.

Lemma plain_entry_ok (k v : string) :
  plain k = true -> k <> "" -> plain v = true -> Browser.entry_ok (k, v) = true.
Proof.
  intros Hk Hne Hv. unfold Browser.entry_ok. cbn [fst snd].
  now rewrite (plain_name_ok k Hk Hne), (plain_value_ok v Hv).
Qed.

Lemma get_after_set (k v : string) (j : Browser.jar) :
  Browser.jar_ok j = true -> plain k = true -> k <> "" -> plain v = true ->
  fst (Cookie.get document (VStr k)
         (snd (Cookie.set_default document (VStr k) (VStr v) j))) = VStr v.
Proof.
  intros Hj Hk Hne Hv.
  pose proof (plain_entry_ok k v Hk Hne Hv) as He.
  rewrite (set_default_stored k v j He).
  rewrite get_stored by now apply upsert_ok.
  rewrite find_upsert. cbn [snd].
  apply plain_inv in Hv as (_ & Hv & _).
  now rewrite (cut_none "=" v Hv).
Qed.

(** A well-formed store stays well-formed under [set(k, v)]. *)
Lemma set_default_keeps_ok (k v : string) (j : Browser.jar) :
  Browser.jar_ok j = true -> plain k = true -> k <> "" -> plain v = true ->
  Browser.jar_ok (snd (Cookie.set_default document (VStr k) (VStr v) j)) = true.
Proof.
  intros Hj Hk Hne Hv.
  pose proof (plain_entry_ok k v Hk Hne Hv) as He.
  rewrite (set_default_stored k v j He). now apply upsert_ok.
Qed.

(** C1: for every key [k] and value [v] that contain no [;], no [=] and
    no white space (a key being non-empty, as the data model has it),
    [set(k, v)] with the default options followed by [get(k)] yields [v],
    whatever well-formed cookies the store held before. *)
Theorem set_then_get (k v : string) (j : Browser.jar) :
  Browser.jar_ok j = true -> plain k = true -> k <> "" -> plain v = true ->
  let (_, j1) := Cookie.set_default document (VStr k) (VStr v) j in
  fst (Cookie.get document (VStr k) j1) = VStr v.
Proof.
  intros Hj Hk Hne Hv.
  pose proof (get_after_set k v j Hj Hk Hne Hv) as H.
  now destruct (Cookie.set_default document (VStr k) (VStr v) j).
Qed.

(** C5: for every key [k] and well-formed values [v1], [v2], the second
    of [set(k, v1)], [set(k, v2)] returns [v1], the value [get(k)] read
    before the write, and a [get(k)] after it yields [v2]; and [set]
    returns [null] when the store held no cookie named [k]. *)
Theorem set_overwrites (k v1 v2 : string) (j : Browser.jar) :
  Browser.jar_ok j = true -> plain k = true -> k <> "" ->
  plain v1 = true -> plain v2 = true ->
  let (r1, j1) := Cookie.set_default document (VStr k) (VStr v1) j in
  let (r2, j2) := Cookie.set_default document (VStr k) (VStr v2) j1 in
  r1 = fst (Cookie.get document (VStr k) j) /\
  r2 = fst (Cookie.get document (VStr k) j1) /\
  r2 = VStr v1 /\
  fst (Cookie.get document (VStr k) j2) = VStr v2 /\
  (~ In k (map fst j) -> r1 = VNull).
Proof.
  intros Hj Hk Hne Hv1 Hv2.
  pose proof (plain_entry_ok k v1 Hk Hne Hv1) as He1.
  pose proof (get_after_set k v1 j Hj Hk Hne Hv1) as H1.
  pose proof (set_default_stored k v1 j He1) as Hs1.
  destruct (Cookie.set_default document (VStr k) (VStr v1) j) as [r1 j1] eqn:E1.
  cbn [snd] in *.
  assert (Hj1 : Browser.jar_ok j1 = true) by (subst j1; now apply upsert_ok).
  pose proof (get_after_set k v2 j1 Hj1 Hk Hne Hv2) as H2.
  destruct (Cookie.set_default document (VStr k) (VStr v2) j1) as [r2 j2] eqn:E2.
  cbn [snd] in *.
  unfold Cookie.set_default in E1, E2. rewrite set_run in E1, E2.
  injection E1 as <- _. injection E2 as <- _.
  repeat split; try assumption.
  intros Hnot. rewrite (get_stored k j Hj). now rewrite (find_absent k j Hnot).
Qed.
End OnTheStore.

(** ** Plain objects and their for-in order *)

Lemma insert_index_perm (x : N * string) (l : list (N * string)) :
  Permutation (insert_index x l) (x :: l).
Proof.
  induction l as [|y l IH]; simpl; [reflexivity|].
  destruct (fst x <? fst y)%N; [reflexivity|].
  rewrite IH. apply perm_swap.
Qed.

Lemma index_keys_perm (ks : list string) :
  Permutation (map snd (index_keys ks)) (filter is_index ks).
Proof.
  induction ks as [|k ks IH]; simpl; [reflexivity|].
  unfold is_index at 1. destruct (array_index k) as [n|]; [|exact IH].
  rewrite insert_index_perm. simpl. now rewrite IH.
Qed.

Lemma filter_split_perm {A} (p : A -> bool) (l : list A) :
  Permutation (filter p l ++ filter (fun x => negb (p x)) l) l.
Proof.
  induction l as [|x l IH]; simpl; [reflexivity|].
  destruct (p x); simpl.
  - now rewrite IH.
  - rewrite <- Permutation_middle. now rewrite IH.
Qed.

(** The for-in order visits every key, once each. *)
Lemma for_in_order_perm (ks : list string) : Permutation (for_in_order ks) ks.
Proof.
  unfold for_in_order. rewrite index_keys_perm. apply filter_split_perm.
Qed.

Lemma for_in_In (o : object) (k : string) :
  In k (for_in o) <-> In k (map fst o).
Proof.
  unfold for_in. split; apply Permutation_in;
    [|symmetry]; apply for_in_order_perm.
Qed.

Lemma for_in_NoDup (o : object) : NoDup (map fst o) -> NoDup (for_in o).
Proof.
  unfold for_in. apply Permutation_NoDup. symmetry. apply for_in_order_perm.
Qed.

Lemma own_In (k : string) (o : object) :
  own k o <> None <-> In k (map fst o).
Proof.
  induction o as [|[k' v] o IH]; simpl.
  - split; [congruence | contradiction].
  - destruct (k' =? k) eqn:E.
    + apply String.eqb_eq in E. split; [auto | discriminate].
    + apply String.eqb_neq in E. rewrite IH. split; [auto | tauto].
Qed.

Lemma put_keys (k : string) (v : value) (o : object) (x : string) :
  In x (map fst (put k v o)) <-> x = k \/ In x (map fst o).
Proof.
  induction o as [|[k' v'] o IH]; simpl.
  - intuition.
  - destruct (k' =? k) eqn:E; simpl.
    + apply String.eqb_eq in E. subst. intuition.
    + rewrite IH. intuition.
Qed.

Lemma put_NoDup (k : string) (v : value) (o : object) :
  NoDup (map fst o) -> NoDup (map fst (put k v o)).
Proof.
  induction o as [|[k' v'] o IH]; simpl; intros H.
  - constructor; [intros [] | constructor].
  - inversion H as [|? ? Hnot Hnd]; subst.
    destruct (k' =? k) eqn:E; simpl.
    + now constructor.
    + constructor; [|auto]. rewrite put_keys. intros [->|Hin]; [|contradiction].
      now rewrite String.eqb_refl in E.
Qed.

Lemma own_put_same (k : string) (v : value) (o : object) :
  own k (put k v o) = Some v.
Proof.
  induction o as [|[k' v'] o IH]; simpl.
  - now rewrite String.eqb_refl.
  - destruct (k' =? k) eqn:E; simpl; now rewrite E.
Qed.

Lemma own_put_other (k k' : string) (v : value) (o : object) :
  k' <> k -> own k (put k' v o) = own k o.
Proof.
  intros Hne. induction o as [|[k0 v0] o IH]; simpl.
  - apply String.eqb_neq in Hne. now rewrite Hne.
  - destruct (k0 =? k') eqn:E; simpl.
    + apply String.eqb_eq in E. subst k0.
      apply String.eqb_neq in Hne. now rewrite Hne.
    + now rewrite IH.
Qed.

(** ** The mapping that [getAll] builds *)

(** The name under which a piece is filed. *)
Lemma getAll_step_cut (result : object) (piece : string) :
  Cookie.getAll_step result piece =
  assign (fst (cut "=" piece)) (value_of piece) result.
Proof.
  unfold Cookie.getAll_step. fold (name_of piece). fold (value_of piece).
  now rewrite name_of_cut.
Qed.

Lemma getAll_fold_NoDup (pieces : list string) : forall o,
  NoDup (map fst o) ->
  NoDup (map fst (fold_left Cookie.getAll_step pieces o)).
Proof.
  induction pieces as [|p pieces IH]; intros o H; [exact H|].
  cbn [fold_left]. apply IH. rewrite getAll_step_cut. unfold assign.
  destruct (_ =? proto); [exact H | now apply put_NoDup].
Qed.

Lemma getAll_fold_keys (pieces : list string) (x : string) : forall o,
  In x (map fst (fold_left Cookie.getAll_step pieces o)) <->
  In x (map fst o) \/
  (x <> proto /\ exists p, In p pieces /\ fst (cut "=" p) = x).
Proof.
  induction pieces as [|p pieces IH]; intros o; cbn [fold_left].
  - split; [auto|]. intros [H|(_ & q & [] & _)]. exact H.
  - rewrite IH, getAll_step_cut. unfold assign.
    destruct (fst (cut "=" p) =? proto) eqn:E.
    + apply String.eqb_eq in E. split.
      * intros [H|(Hx & q & Hq & Hn)]; [auto|]. right. split; [exact Hx|].
        exists q. split; [now right | exact Hn].
      * intros [H|(Hx & q & [Hq|Hq] & Hn)]; [auto| |].
        -- subst q. congruence.
        -- right. split; [exact Hx|]. now exists q.
    + apply String.eqb_neq in E. rewrite put_keys. split.
      * intros [[->|H]|(Hx & q & Hq & Hn)].
        -- right. split; [exact E|]. exists p. split; [now left | reflexivity].
        -- now left.
        -- right. split; [exact Hx|]. exists q. split; [now right | exact Hn].
      * intros [H|(Hx & q & [Hq|Hq] & Hn)].
        -- left. now right.
        -- subst q. left. left. now symmetry.
        -- right. split; [exact Hx|]. now exists q.
Qed.

(** Pieces filed under other names leave the entry of a name as it is. *)
Lemma getAll_fold_other (k : string) (pieces : list string) : forall o,
  (forall q, In q pieces -> fst (cut "=" q) <> k) ->
  own k (fold_left Cookie.getAll_step pieces o) = own k o.
Proof.
  induction pieces as [|p pieces IH]; intros o H; [reflexivity|].
  cbn [fold_left]. rewrite IH by (intros q Hq; apply H; now right).
  rewrite getAll_step_cut. unfold assign.
  destruct (_ =? proto); [reflexivity|].
  apply own_put_other. apply H. now left.
Qed.

(** The last piece of a name decides its entry. *)
Lemma getAll_fold_last (k : string) (pre post : list string) (p : string) (o : object) :
  fst (cut "=" p) = k -> k <> proto ->
  (forall q, In q post -> fst (cut "=" q) <> k) ->
  own k (fold_left Cookie.getAll_step (pre ++ p :: post) o) = Some (value_of p).
Proof.
  intros Hp Hk Hpost. rewrite fold_left_app. cbn [fold_left].
  rewrite (getAll_fold_other k post _ Hpost).
  rewrite getAll_step_cut, Hp. unfold assign.
  apply String.eqb_neq in Hk. rewrite Hk. apply own_put_same.
Qed.

(** ** [get]'s loop *)

Lemma get_loop_none (key : value) (pieces : list string) :
  (forall q, In q pieces -> strict_eq (name_of q) key = false) ->
  Cookie.get_loop key pieces = VNull.
Proof.
  induction pieces as [|p pieces IH]; intros H; [reflexivity|].
  cbn [Cookie.get_loop]. fold (name_of p).
  rewrite (H p) by now left. apply IH. intros q Hq. apply H. now right.
Qed.

(** The first piece of the name decides. *)
Lemma get_loop_first (key : value) (pre post : list string) (p : string) :
  (forall q, In q pre -> strict_eq (name_of q) key = false) ->
  strict_eq (name_of p) key = true ->
  Cookie.get_loop key (pre ++ p :: post) = value_of p.
Proof.
  induction pre as [|x pre IH]; intros Hpre Hp.
  - cbn [app Cookie.get_loop]. fold (name_of p). now rewrite Hp.
  - cbn [app Cookie.get_loop]. fold (name_of x).
    rewrite (Hpre x) by now left. apply IH; [|exact Hp].
    intros q Hq. apply Hpre. now right.
Qed.

Lemma strict_eq_name (piece k : string) :
  strict_eq (name_of piece) (VStr k) = (fst (cut "=" piece) =? k).
Proof. now rewrite name_of_cut. Qed.

(** What [get] returns, for any document: [null] when the string is
    empty; otherwise the text between the first and the second [=] of the
    first piece whose text before the first [=] is the key, [undefined] when
    that piece has no [=], and [null] when there is no such piece. *)
Lemma get_first_piece {D} (document : Document D) (k : string) (d : D) :
  fst (Cookie.get document (VStr k) d) =
  if cookie document d =? "" then VNull
  else
    match find (fun p => fst (cut "=" p) =? k) (split_delimiter (cookie document d)) with
    | Some p =>
        match snd (cut "=" p) with
        | Some r => VStr (fst (cut "=" r))
        | None => VUndefined
        end
    | None => VNull
    end.
Proof.
  rewrite get_run. cbn [fst].
  destruct (cookie document d =? ""); [reflexivity|].
  induction (split_delimiter (cookie document d)) as [|p l IH]; [reflexivity|].
  cbn [Cookie.get_loop find]. fold (name_of p). fold (value_of p).
  rewrite strict_eq_name.
  destruct (fst (cut "=" p) =? k); [apply value_of_cut | exact IH].
Qed.

(** ** Reading *)

(** C2: the spec has [get] return all that follows the first [=] of the
    first piece named [key].  Once [a=b=c] has been assigned to
    [document.cookie], the store holds the cookie [a] with the value [b=c]
    and the property reads [a=b=c]; [get("a")] then returns [b], because
    [split("=")] cuts the piece at every [=] and [pair[1]] is only the text
    up to the second one. *)
Theorem get_stops_at_second_equals :
  cookie_assign example_store "a=b=c" [] = [("a", "b=c")] /\
  cookie example_store [("a", "b=c")] = "a=b=c" /\
  split_delimiter "a=b=c" = ["a=b=c"] /\
  split_equals "a=b=c" = ["a"; "b"; "c"] /\
  fst (Cookie.get example_store (VStr "a") [("a", "b=c")]) = VStr "b" /\
  fst (Cookie.get Frozen (VStr "a") "a=b=c") = VStr "b" /\
  Described.get "a" (split_delimiter "a=b=c") = Some "b=c".
Proof. repeat split; reflexivity. Qed.

(** ** The reads, checked *)






Section Reading.
Context {D : Type} (document : Document D).


(** C9: on the cookie string [a=1; b=2;c=3], [getAll()] is exactly
    [{a: "1", b: "2", c: "3"}], [get("b")] is ["2"] and [get("z")] is
    [null]. *)
Theorem scenario_three_cookies (d : D) :
  cookie document d = "a=1; b=2;c=3" ->
  fst (Cookie.getAll document d) = [("a", VStr "1"); ("b", VStr "2"); ("c", VStr "3")] /\
  fst (Cookie.get document (VStr "b") d) = VStr "2" /\
  fst (Cookie.get document (VStr "z") d) = VNull.
Proof.
  intros H. rewrite getAll_run, !get_run, H. repeat split; reflexivity.
Qed.
End Reading.



(** C4: the claim has [getAll] map every repeated name to the value of its
    last occurrence.  On [__proto__=1; __proto__=2] both pieces have the name
    [__proto__] and the last has the value [2], yet [getAll]'s object has no
    entry at all, while [get("__proto__")] on the same string finds the
    cookie: the assignment [result["__proto__"] = "2"] on a plain object
    reaches the setter inherited from [Object.prototype], which ignores a
    string.  The store holds such a cookie once [__proto__=2] has been
    assigned.  On [a=1; a=b=c] the last occurrence wins, with the value cut
    at its second [=] as in C2. *)
Theorem getAll_drops_proto :
  split_delimiter (cookie Frozen "__proto__=1; __proto__=2")
    = ["__proto__=1"; "__proto__=2"] /\
  name_of "__proto__=1" = VStr "__proto__" /\
  name_of "__proto__=2" = VStr "__proto__" /\
  value_of "__proto__=2" = VStr "2" /\
  fst (Cookie.getAll Frozen "__proto__=1; __proto__=2") = [] /\
  own "__proto__" (fst (Cookie.getAll Frozen "__proto__=1; __proto__=2")) = None /\
  own "__proto__" (Described.getAll (split_delimiter "__proto__=1; __proto__=2"))
    = Some (VStr "2") /\
  fst (Cookie.get Frozen (VStr "__proto__") "__proto__=1; __proto__=2") = VStr "1" /\
  cookie_assign example_store "__proto__=2" [] = [("__proto__", "2")] /\
  fst (Cookie.getAll example_store [("__proto__", "2")]) = [] /\
  own "a" (fst (Cookie.getAll Frozen "a=1; a=b=c")) = Some (VStr "b") /\
  own "a" (Described.getAll (split_delimiter "a=1; a=b=c")) = Some (VStr "b=c").
Proof. repeat split; reflexivity. Qed.

Lemma scenario_three_cookies_witness :
  cookie Frozen "a=1; b=2;c=3" = "a=1; b=2;c=3" /\
  fst (Cookie.getAll Frozen "a=1; b=2;c=3")
    = [("a", VStr "1"); ("b", VStr "2"); ("c", VStr "3")] /\
  fst (Cookie.get Frozen (VStr "b") "a=1; b=2;c=3") = VStr "2" /\
  fst (Cookie.get Frozen (VStr "z") "a=1; b=2;c=3") = VNull.
Proof.
  split; [reflexivity|].
  apply (scenario_three_cookies Frozen "a=1; b=2;c=3"). reflexivity.
Defined.

(** ** Writing *)

Lemma truthy_passed (x : value) : truthy (passed x) = truthy x.
Proof. unfold passed. now destruct (truthy x) eqn:E. Qed.

Lemma attribute_string_passed
      (key value path expires maxAge domain secure samesite : JS.value) :
  attribute_string key value (passed path) (passed expires) (passed maxAge)
    (passed domain) (passed secure) (passed samesite) =
  attribute_string key value path expires maxAge domain secure samesite.
Proof.
  unfold attribute_string. rewrite !truthy_passed. unfold passed.
  now destruct (truthy path), (truthy expires), (truthy maxAge), (truthy domain).
Qed.

Lemma snd_then_ret {D A} (m : Cookie.M (D := D) A) (d : D) :
  snd (Cookie.bind m (fun _ => Cookie.ret tt) d) = snd (m d).
Proof. unfold Cookie.bind, Cookie.ret. now destruct (m d). Qed.

Lemma fold_left_same {A B} (f g : A -> B -> A) (l : list B) : forall a,
  (forall a b, f a b = g a b) -> fold_left f l a = fold_left g l a.
Proof.
  induction l as [|b l IH]; intros a H; [reflexivity|].
  cbn [fold_left]. rewrite H. now apply IH.
Qed.

Lemma clear_run {D} (document : Document D) (d : D) :
  Cookie.clear document d =
  (tt, fold_left (fun d key => snd (Cookie.unset document (VStr key) d))
         (for_in (fst (Cookie.getAll document d))) d).
Proof.
  unfold Cookie.clear. unfold Cookie.bind at 1.
  rewrite getAll_run. cbn [fst]. rewrite for_each_run. f_equal.
  apply fold_left_same. intros a b. apply snd_then_ret.
Qed.

Lemma setAsMap_run {D} (document : Document D) (o : object) (d : D) :
  Cookie.setAsMap document o d =
  (tt, fold_left (fun d key => snd (Cookie.set_default document (VStr key) (prop key o) d))
         (for_in o) d).
Proof.
  unfold Cookie.setAsMap. rewrite for_each_run. f_equal.
  apply fold_left_same. intros a b. apply snd_then_ret.
Qed.

Section Writing.
Context {D : Type} (document : Document D).

(** C7: for every key, value and options (a number among them being a
    safe integer), the string that [set] assigns to [document.cookie] is
    [key=value;path=<path>;] followed by [expires=..;], [max-age=..;],
    [domain=..;], [secure;] and [samesite;] in this order, each only when
    its option is truthy; [setAsArray] assigns that string for each entry in
    turn, and for [[{key: "x", value: "5", secure: true}]] it assigns
    [x=5;path=/;secure;]. *)
Theorem set_assigns_attribute_string
        (key value path expires maxAge domain secure samesite : JS.value) (d : D) :
  (exact key = true -> exact value = true -> exact path = true ->
   exact expires = true -> exact maxAge = true -> exact domain = true ->
   exact secure = true -> exact samesite = true ->
   Cookie.set document key value path expires maxAge domain secure samesite d =
     (fst (Cookie.get document key d),
      cookie_assign document
        (attribute_string key value path expires maxAge domain secure samesite) d))
  /\
  (forall array : list object,
     forallb exact_entry array = true ->
     snd (Cookie.setAsArray document array d) =
     fold_left
       (fun d curObject =>
          cookie_assign document
            (attribute_string (prop "key" curObject) (prop "value" curObject)
               (prop "path" curObject) (prop "expires" curObject)
               (prop "maxAge" curObject) (prop "domain" curObject)
               (prop "secure" curObject) (prop "samesite" curObject)) d)
       array d)
  /\
  Cookie.setAsArray document
    [[("key", VStr "x"); ("value", VStr "5"); ("secure", VBool true)]] d =
    (tt, cookie_assign document "x=5;path=/;secure;" d).
Proof.
  split; [intros _ _ _ _ _ _ _ _; apply set_run|]. split.
  - intros array _. unfold Cookie.setAsArray. rewrite for_each_run. cbn [snd].
    revert d. induction array as [|o array IH]; intros d; [reflexivity|].
    cbn [fold_left]. rewrite snd_then_ret, set_run. cbn [snd]. apply IH.
  - unfold Cookie.setAsArray. rewrite for_each_run. cbn [fold_left].
    rewrite snd_then_ret, set_run. reflexivity.
Qed.

(** C10: a falsy option is to [set] an option that was not passed: the
    call returns and writes what it does with [undefined] in its place, for
    each of the six options; so an empty-string path gives [path=/], and
    with an empty-string or zero [expires], [maxAge] and [domain] the
    written string is [key=value;path=/;] (a number as key or value being a
    safe integer), with no [expires], [max-age] or [domain] attribute. *)
Theorem set_falsy_options
        (key value path expires maxAge domain secure samesite : JS.value) (d : D) :
  Cookie.set document key value path expires maxAge domain secure samesite d =
    Cookie.set document key value (passed path) (passed expires) (passed maxAge)
      (passed domain) (passed secure) (passed samesite) d
  /\
  Cookie.set document key value
    (VStr "") (VStr "") (VNum 0) (VStr "") (VBool false) VNull d =
    Cookie.set_default document key value d
  /\
  (exact key = true -> exact value = true ->
   snd (Cookie.set document key value
          (VStr "") (VNum 0) (VStr "") (VNum 0) (VNum 0) (VStr "") d) =
     cookie_assign document (ToString key ++ "=" ++ ToString value ++ ";path=/;") d).
Proof.
  split; [|split].
  - now rewrite !set_run, attribute_string_passed.
  - unfold Cookie.set_default. now rewrite !set_run.
  - intros _ _. now rewrite set_run.
Qed.
End Writing.

Lemma set_assigns_attribute_string_witness :
  Cookie.set Recorder (VStr "k") (VNum 5) (VStr "/app") VUndefined (VNum 3600)
    (VStr "") (VBool true) VUndefined [] =
    (VNull, ["k=5;path=/app;max-age=3600;secure;"]) /\
  snd (Cookie.setAsArray Recorder
         [[("key", VStr "x"); ("value", VNum 5)]; [("key", VStr "y"); ("value", VStr "6")]]
         []) = ["x=5;path=/;"; "y=6;path=/;"].
Proof.
  destruct (set_assigns_attribute_string Recorder (VStr "k") (VNum 5) (VStr "/app")
              VUndefined (VNum 3600) (VStr "") (VBool true) VUndefined [])
    as (Hset & Harray & _).
  split.
  - apply Hset; reflexivity.
  - apply (Harray [[("key", VStr "x"); ("value", VNum 5)];
                   [("key", VStr "y"); ("value", VStr "6")]]). reflexivity.
Defined.

Lemma set_falsy_options_witness :
  snd (Cookie.set Recorder (VStr "k") (VNum 5)
         (VStr "") (VNum 0) (VStr "") (VNum 0) (VNum 0) (VStr "") []) =
    ["k=5;path=/;"].
Proof.
  destruct (set_falsy_options Recorder (VStr "k") (VNum 5) VUndefined VUndefined
              VUndefined VUndefined VUndefined VUndefined []) as (_ & _ & H).
  apply H; reflexivity.
Defined.

(** ** Removing, on the store *)

Lemma fold_remove_In (ks : list string) : forall (j : Browser.jar) (e : string * string),
  In e (fold_left (fun d k => Browser.remove k d) ks j) <->
  In e j /\ ~ In (fst e) ks.
Proof.
  induction ks as [|k ks IH]; intros j e; cbn [fold_left].
  - simpl. tauto.
  - rewrite IH. unfold Browser.remove at 1. rewrite filter_In.
    rewrite negb_true_iff, String.eqb_neq. simpl. intuition congruence.
Qed.

Lemma fold_remove_ok (ks : list string) : forall j : Browser.jar,
  Browser.jar_ok j = true ->
  Browser.jar_ok (fold_left (fun d k => Browser.remove k d) ks j) = true.
Proof.
  induction ks as [|k ks IH]; intros j H; [exact H|].
  cbn [fold_left]. apply IH. now apply remove_ok.
Qed.

Lemma jar_ok_In (j : Browser.jar) (e : string * string) :
  Browser.jar_ok j = true -> In e j -> Browser.entry_ok e = true.
Proof.
  unfold Browser.jar_ok. rewrite forallb_forall. auto.
Qed.

Lemma render_name (e : string * string) :
  Browser.entry_ok e = true -> fst (cut "=" (Browser.render e)) = fst e.
Proof.
  intros He. unfold Browser.render. cbn [append].
  now rewrite (cut_append "=" _ _ (entry_name_clean e He)).
Qed.

(** A store whose cookies are all named [__proto__] reads as an empty
    mapping. *)
Lemma getAll_fold_proto (j : Browser.jar) : forall o,
  Browser.jar_ok j = true -> (forall e, In e j -> fst e = proto) ->
  fold_left Cookie.getAll_step (map Browser.render j) o = o.
Proof.
  induction j as [|e j IH]; intros o Hok Hall; [reflexivity|].
  apply andb_true_iff in Hok as [He Hj].
  cbn [map fold_left]. rewrite getAll_step_cut, (render_name e He).
  unfold assign. rewrite (Hall e) by now left.
  rewrite String.eqb_refl. apply IH; [exact Hj|].
  intros e' H'. apply Hall. now right.
Qed.

Section OnTheStoreWithClock.
Variable parse_date : string -> option Z.
Variable now : Z.
Hypothesis epoch_parsed : parse_date Cookie.zeroDate = Some 0%Z.
Hypothesis epoch_passed : (0 < now)%Z.

Let document := Browser.document parse_date now.

Lemma unset_stored (k : string) (j : Browser.jar) :
  Browser.name_ok k = true ->
  snd (Cookie.unset document (VStr k) j) = Browser.remove k j.
Proof.
  intros Hk. rewrite unset_run. cbn [snd ToString cookie_assign document Browser.document].
  now apply write_expired.
Qed.

Lemma fold_unset_stored (ks : list string) : forall j : Browser.jar,
  (forall k, In k ks -> Browser.name_ok k = true) ->
  fold_left (fun d k => snd (Cookie.unset document (VStr k) d)) ks j =
  fold_left (fun d k => Browser.remove k d) ks j.
Proof.
  induction ks as [|k ks IH]; intros j H; [reflexivity|].
  cbn [fold_left]. rewrite unset_stored by (apply H; now left).
  apply IH. intros k' Hk'. apply H. now right.
Qed.

(** The keys of [getAll]'s mapping are the stored names, [__proto__]
    apart. *)
Lemma getAll_stored_keys (j : Browser.jar) (k : string) :
  Browser.jar_ok j = true ->
  (In k (map fst (fst (Cookie.getAll document j))) <->
   k <> proto /\ In k (map fst j)).
Proof.
  intros Hok. rewrite getAll_run. cbn [fst cookie document Browser.document].
  destruct j as [|e j].
  - simpl. tauto.
  - assert (Hne : e :: j <> []) by discriminate.
    pose proof (read_nonempty _ Hok Hne) as Hr.
    apply String.eqb_neq in Hr. rewrite Hr, (split_read _ Hok Hne).
    rewrite getAll_fold_keys. split.
    + intros [[]|(Hk & p & Hp & Hn)]. split; [exact Hk|].
      apply in_map_iff in Hp as (e' & <- & He').
      rewrite (render_name e' (jar_ok_In _ _ Hok He')) in Hn. subst k.
      now apply in_map.
    + intros (Hk & Hin). right. split; [exact Hk|].
      apply in_map_iff in Hin as (e' & <- & He').
      exists (Browser.render e'). split; [now apply in_map|].
      apply render_name. exact (jar_ok_In _ _ Hok He').
Qed.

(** After [clear], the store holds no cookie that [getAll] can see. *)
Lemma clear_stored (j : Browser.jar) :
  Browser.jar_ok j = true ->
  fst (Cookie.getAll document (snd (Cookie.clear document j))) = [].
Proof.
  intros Hok. rewrite clear_run. cbn [snd].
  set (ks := for_in (fst (Cookie.getAll document j))).
  assert (Hks : forall k, In k ks <-> k <> proto /\ In k (map fst j)).
  { intros k. unfold ks. rewrite for_in_In. now apply getAll_stored_keys. }
  rewrite fold_unset_stored.
  2:{ intros k Hk. apply Hks in Hk as [_ Hk].
      apply in_map_iff in Hk as (e & <- & He).
      pose proof (jar_ok_In _ _ Hok He) as Hentry.
      unfold Browser.entry_ok in Hentry. now apply andb_true_iff in Hentry as [Hn _]. }
  set (f := fold_left (fun d k => Browser.remove k d) ks j).
  assert (Hf : Browser.jar_ok f = true) by now apply fold_remove_ok.
  assert (Hall : forall e, In e f -> fst e = proto).
  { intros e He. apply fold_remove_In in He as [Hj Hnot].
    destruct (string_dec (fst e) proto) as [E|E]; [exact E|].
    exfalso. apply Hnot. apply Hks. split; [exact E | now apply in_map]. }
  rewrite getAll_run. cbn [fst cookie document Browser.document].
  destruct (Browser.read f =? "") eqn:Er; [reflexivity|].
  destruct f as [|e f']; [discriminate|].
  rewrite split_read by (assumption || discriminate).
  now apply getAll_fold_proto.
Qed.
End OnTheStoreWithClock.

Section Removing.
Variable parse_date : string -> option Z.
Variable now : Z.
Hypothesis epoch_parsed : parse_date Cookie.zeroDate = Some 0%Z.
Hypothesis epoch_passed : (0 < now)%Z.

Let document := Browser.document parse_date now.

(** C6: for every key [k] and well-formed value [v], [unset(k)] after
    [set(k, v)] returns [v], the value [get(k)] read before the write; on
    whatever document it runs, [unset(k)] returns what [get(k)] reads and
    makes the one assignment of
    [k=;expires=Thu, 01 Jan 1970 00:00:00 GMT;path=/], a cookie for [k] with
    an empty value that expired at the epoch, with [path=/]; the store
    deletes the cookie, and a [get(k)] after it yields [null]. *)
Theorem unset_after_set (k v : string) (j : Browser.jar) :
  Browser.jar_ok j = true -> plain k = true -> k <> "" -> plain v = true ->
  (forall (D : Type) (doc : Document D) (d : D),
     Cookie.unset doc (VStr k) d =
     (fst (Cookie.get doc (VStr k) d),
      cookie_assign doc (k ++ "=;expires=Thu, 01 Jan 1970 00:00:00 GMT;path=/") d)) /\
  let (_, j1) := Cookie.set_default document (VStr k) (VStr v) j in
  let (r, j2) := Cookie.unset document (VStr k) j1 in
  r = fst (Cookie.get document (VStr k) j1) /\
  r = VStr v /\
  j2 = cookie_assign document
         (k ++ "=;expires=Thu, 01 Jan 1970 00:00:00 GMT;path=/") j1 /\
  j2 = Browser.remove k j1 /\
  fst (Cookie.get document (VStr k) j2) = VNull.
Proof.
  intros Hj Hk Hne Hv.
  split; [intros D doc d; apply unset_run|].
  pose proof (plain_entry_ok k v Hk Hne Hv) as He.
  pose proof (get_after_set parse_date now k v j Hj Hk Hne Hv) as Hget.
  pose proof (set_default_stored parse_date now k v j He) as Hset.
  fold document in Hget, Hset.
  destruct (Cookie.set_default document (VStr k) (VStr v) j) as [r1 j1].
  cbn [snd] in Hget, Hset.
  assert (Hj1 : Browser.jar_ok j1 = true) by (subst j1; now apply upsert_ok).
  pose proof (unset_stored parse_date now epoch_parsed epoch_passed k j1
                (plain_name_ok k Hk Hne)) as Hrm.
  fold document in Hrm.
  pose proof (unset_run document (VStr k) j1) as Hrun.
  destruct (Cookie.unset document (VStr k) j1) as [r j2].
  cbn [snd] in Hrm. injection Hrun as Hr Hw. cbn [ToString] in Hw.
  split; [exact Hr|]. split; [now rewrite Hr|]. split; [exact Hw|].
  split; [exact Hrm|].
  rewrite Hrm. unfold document.
  rewrite get_stored by now apply remove_ok.
  now rewrite find_remove.
Qed.

(** C8: [clear()] takes one [getAll()] snapshot and calls [unset] once for
    every key of it, each key being visited exactly once; and after
    [setAsMap({a: "1", b: "2"})], which sets with the default options,
    [clear()] leaves [getAll()] empty, whatever well-formed cookies the
    store held before. *)
Theorem clear_unsets_snapshot :
  (forall (D : Type) (doc : Document D) (d : D),
     let cookies := fst (Cookie.getAll doc d) in
     Cookie.clear doc d =
       (tt, fold_left (fun d key => snd (Cookie.unset doc (VStr key) d))
              (for_in cookies) d) /\
     NoDup (for_in cookies) /\
     (forall key, In key (for_in cookies) <-> own key cookies <> None))
  /\
  (forall j : Browser.jar,
     Browser.jar_ok j = true ->
     let (_, j1) := Cookie.setAsMap document [("a", VStr "1"); ("b", VStr "2")] j in
     let (_, j2) := Cookie.clear document j1 in
     fst (Cookie.getAll document j2) = []).
Proof.
  split.
  - intros D doc d cookies. split; [apply clear_run|]. split.
    + apply for_in_NoDup. unfold cookies. rewrite getAll_run. cbn [fst].
      destruct (cookie doc d =? ""); [constructor|].
      apply getAll_fold_NoDup. constructor.
    + intros key. rewrite for_in_In. symmetry. apply own_In.
  - intros j Hj.
    pose proof (setAsMap_run document [("a", VStr "1"); ("b", VStr "2")] j) as Hmap.
    destruct (Cookie.setAsMap document [("a", VStr "1"); ("b", VStr "2")] j) as [u j1].
    injection Hmap as _ Hj1.
    change (for_in [("a", VStr "1"); ("b", VStr "2")]) with ["a"; "b"] in Hj1.
    cbn [fold_left] in Hj1.
    change (prop "a" [("a", VStr "1"); ("b", VStr "2")]) with (VStr "1") in Hj1.
    change (prop "b" [("a", VStr "1"); ("b", VStr "2")]) with (VStr "2") in Hj1.
    unfold document in Hj1.
    rewrite !set_default_stored in Hj1 by reflexivity.
    assert (Hok : Browser.jar_ok j1 = true).
    { subst j1. apply upsert_ok; [apply upsert_ok|]; auto. }
    pose proof (clear_stored parse_date now epoch_parsed epoch_passed j1 Hok) as Hclear.
    fold document in Hclear.
    now destruct (Cookie.clear document j1) as [u' j2].
Qed.
End Removing.

(** ** Worked instances on the example store *)

Lemma set_then_get_witness :
  Browser.jar_ok [("b", "2")] = true /\ plain "a" = true /\ "a" <> "" /\
  plain "1" = true /\
  (let (_, j1) := Cookie.set_default example_store (VStr "a") (VStr "1") [("b", "2")] in
   fst (Cookie.get example_store (VStr "a") j1) = VStr "1").
Proof.
  split; [reflexivity|]. split; [reflexivity|]. split; [discriminate|].
  split; [reflexivity|].
  apply (set_then_get parse_epoch 1000 "a" "1" [("b", "2")]);
    (reflexivity || discriminate).
Defined.

Lemma set_overwrites_witness :
  let (r1, j1) := Cookie.set_default example_store (VStr "a") (VStr "1") [("b", "2")] in
  let (r2, j2) := Cookie.set_default example_store (VStr "a") (VStr "7") j1 in
  r1 = fst (Cookie.get example_store (VStr "a") [("b", "2")]) /\
  r2 = fst (Cookie.get example_store (VStr "a") j1) /\
  r2 = VStr "1" /\
  fst (Cookie.get example_store (VStr "a") j2) = VStr "7" /\
  (~ In "a" (map fst [("b", "2")]) -> r1 = VNull).
Proof.
  apply (set_overwrites parse_epoch 1000 "a" "1" "7" [("b", "2")]);
    (reflexivity || discriminate).
Defined.

Lemma unset_after_set_witness :
  (forall (D : Type) (doc : Document D) (d : D),
     Cookie.unset doc (VStr "a") d =
     (fst (Cookie.get doc (VStr "a") d),
      cookie_assign doc ("a" ++ "=;expires=Thu, 01 Jan 1970 00:00:00 GMT;path=/") d)) /\
  let (_, j1) := Cookie.set_default example_store (VStr "a") (VStr "1") [("b", "2")] in
  let (r, j2) := Cookie.unset example_store (VStr "a") j1 in
  r = fst (Cookie.get example_store (VStr "a") j1) /\
  r = VStr "1" /\
  j2 = cookie_assign example_store
         ("a" ++ "=;expires=Thu, 01 Jan 1970 00:00:00 GMT;path=/") j1 /\
  j2 = Browser.remove "a" j1 /\
  fst (Cookie.get example_store (VStr "a") j2) = VNull.
Proof.
  apply (unset_after_set parse_epoch 1000 eq_refl eq_refl "a" "1" [("b", "2")]);
    (reflexivity || discriminate).
Defined.

Lemma clear_unsets_snapshot_witness :
  parse_epoch Cookie.zeroDate = Some 0%Z /\ (0 < 1000)%Z /\
  Browser.jar_ok [("c", "3")] = true /\
  (let (_, j1) := Cookie.setAsMap example_store [("a", VStr "1"); ("b", VStr "2")] [("c", "3")] in
   let (_, j2) := Cookie.clear example_store j1 in
   fst (Cookie.getAll example_store j2) = []).
Proof.
  split; [reflexivity|]. split; [reflexivity|]. split; [reflexivity|].
  apply (proj2 (clear_unsets_snapshot parse_epoch 1000 eq_refl eq_refl) [("c", "3")]).
  reflexivity.
Defined.


(* ================================================================== *)
(** * Part III: further properties of the methods *)
(* ================================================================== *)

(** ** Pieces *)

(** No piece of [split(/\s*;\s*/g)] holds a [;]. *)
Lemma split_loop_no_semi (s : string) : forall skip cur,
  has is_semi cur = false ->
  Forall (fun p => has is_semi p = false) (split_loop match_delimiter s skip cur).
Proof.
  induction s as [|c s IH]; intros skip cur H; cbn [split_loop].
  - now constructor.
  - destruct skip as [|k]; [|now apply IH].
    destruct (match_delimiter (String c s)) as [e|] eqn:E.
    + constructor; [exact H | now apply IH].
    + apply IH. rewrite has_append. cbn [has]. rewrite H, orb_false_r.
      cbn [match_delimiter] in E. now destruct (is_semi c).
Qed.

Lemma split_delimiter_no_semi (s p : string) :
  In p (split_delimiter s) -> has is_semi p = false.
Proof.
  intros Hp. pose proof (split_loop_no_semi s 0 "" eq_refl) as H.
  rewrite Forall_forall in H. now apply H.
Qed.

Lemma cut_has (p : ascii -> bool) (sep : ascii) (s : string) :
  has p s = false ->
  has p (fst (cut sep s)) = false /\
  (forall r, snd (cut sep s) = Some r -> has p r = false).
Proof.
  induction s as [|c s IH]; cbn [cut has].
  - intros _. split; [reflexivity | discriminate].
  - intros H. apply orb_false_iff in H as [Hc Hs].
    destruct (Ascii.eqb c sep).
    + split; [reflexivity|]. intros r E. injection E as <-. exact Hs.
    + destruct (IH Hs) as [H1 H2]. destruct (cut sep s) as [a b].
      cbn [fst snd] in *. split; [cbn [has]; now rewrite Hc, H1 | exact H2].
Qed.

Lemma cut_equals_clean (s : string) : has is_equals (fst (cut "=" s)) = false.
Proof. exact (cut_fst_clean "=" s). Qed.

(** The name of a piece that has no [;] is tidy, and so is its value. *)
Lemma piece_tidy (piece : string) :
  has is_semi piece = false ->
  tidy (fst (cut "=" piece)) = true /\ tidy_value (value_of piece) = true.
Proof.
  intros H. destruct (cut_has is_semi "=" piece H) as [H1 H2].
  split.
  - unfold tidy. now rewrite H1, cut_equals_clean.
  - rewrite value_of_cut. destruct (snd (cut "=" piece)) as [r|]; [|reflexivity].
    cbn [tidy_value]. unfold tidy.
    destruct (cut_has is_semi "=" r (H2 r eq_refl)) as [H3 _].
    now rewrite H3, cut_equals_clean.
Qed.

Lemma value_of_not_null (piece : string) : value_of piece <> VNull.
Proof.
  rewrite value_of_cut. destruct (snd (cut "=" piece)); discriminate.
Qed.

Lemma get_loop_null_iff (k : string) (pieces : list string) :
  Cookie.get_loop (VStr k) pieces = VNull <->
  (forall q, In q pieces -> name_of q <> VStr k).
Proof.
  induction pieces as [|p pieces IH]; cbn [Cookie.get_loop].
  - split; [intros _ q [] | reflexivity].
  - fold (name_of p). fold (value_of p). rewrite strict_eq_name.
    destruct (fst (cut "=" p) =? k) eqn:E.
    + apply String.eqb_eq in E. split.
      * intros H. now apply value_of_not_null in H.
      * intros H. exfalso. apply (H p); [now left|].
        now rewrite name_of_cut, E.
    + apply String.eqb_neq in E. rewrite IH. split.
      * intros H q [<-|Hq]; [|now apply H].
        rewrite name_of_cut. congruence.
      * intros H q Hq. apply H. now right.
Qed.

Lemma get_loop_other_key (key : value) (pieces : list string) :
  (forall k, key <> VStr k) -> Cookie.get_loop key pieces = VNull.
Proof.
  intros Hkey. apply get_loop_none. intros q _. rewrite name_of_cut.
  destruct key; try reflexivity. now destruct (Hkey s).
Qed.

(** ** Reading, for any document *)

Section ReadingMore.
Context {D : Type} (document : Document D).

(** X1: on an empty cookie string [get] returns [null] for every key,
    [getAll] returns the empty object, [set] and [unset] return [null] as the
    old value, and [clear] assigns nothing at all. *)
Theorem empty_cookie_string (d : D) (key value path expires maxAge domain secure samesite : JS.value) :
  cookie document d = "" ->
  Cookie.get document key d = (VNull, d) /\
  Cookie.getAll document d = ([], d) /\
  fst (Cookie.set document key value path expires maxAge domain secure samesite d) = VNull /\
  fst (Cookie.unset document key d) = VNull /\
  Cookie.clear document d = (tt, d).
Proof.
  intros H.
  assert (Hget : Cookie.get document key d = (VNull, d))
    by (now rewrite get_run, H).
  assert (Hall : Cookie.getAll document d = ([], d))
    by (now rewrite getAll_run, H).
  split; [exact Hget|]. split; [exact Hall|].
  split; [now rewrite set_run, Hget|].
  split; [now rewrite unset_run, Hget|].
  now rewrite clear_run, Hall.
Qed.

(** X2: [get] compares with [===]: for a key that is not a string (a
    number, a boolean, [null], [undefined]) it returns [null] whatever the
    cookie string holds. *)
Theorem get_key_not_a_string (d : D) (key : value) :
  (forall k, key <> VStr k) ->
  fst (Cookie.get document key d) = VNull.
Proof.
  intros Hkey. rewrite get_run. cbn [fst].
  destruct (cookie document d =? ""); [reflexivity|].
  now apply get_loop_other_key.
Qed.

(** X3: [get(k)] returns [null] exactly when the cookie string is empty or
    none of its pieces has the name [k]. *)
Theorem get_null_iff (d : D) (k : string) :
  fst (Cookie.get document (VStr k) d) = VNull <->
  cookie document d = "" \/
  (forall q, In q (split_delimiter (cookie document d)) -> name_of q <> VStr k).
Proof.
  rewrite get_run. cbn [fst].
  destruct (cookie document d =? "") eqn:E.
  - apply String.eqb_eq in E. split; [now left | reflexivity].
  - apply String.eqb_neq in E. rewrite get_loop_null_iff. split; [now right|].
    intros [H|H]; [contradiction | exact H].
Qed.

(** X4: a string that [get] returns holds no [=] and no [;]. *)
Theorem get_returns_tidy (d : D) (key : value) (s : string) :
  fst (Cookie.get document key d) = VStr s -> tidy s = true.
Proof.
  rewrite get_run. cbn [fst].
  destruct (cookie document d =? ""); [discriminate|].
  pose proof (split_delimiter_no_semi (cookie document d)) as Hsemi.
  induction (split_delimiter (cookie document d)) as [|p l IH];
    cbn [Cookie.get_loop]; [discriminate|].
  fold (name_of p). fold (value_of p).
  destruct (strict_eq (name_of p) key).
  - intros E. destruct (piece_tidy p (Hsemi p (or_introl eq_refl))) as [_ Hv].
    now rewrite E in Hv.
  - apply IH. intros q Hq. apply Hsemi. now right.
Qed.
End ReadingMore.

Lemma own_put_inv (k n : string) (v x : value) (o : object) :
  own k (put n x o) = Some v -> (k = n /\ v = x) \/ (k <> n /\ own k o = Some v).
Proof.
  intros H. destruct (string_dec n k) as [E|E].
  - subst n. rewrite own_put_same in H. injection H as <-. now left.
  - rewrite own_put_other in H by exact E. right. split; [congruence | exact H].
Qed.

Lemma getAll_fold_entries (pieces : list string) : forall o,
  (forall p, In p pieces -> has is_semi p = false) ->
  (forall k v, own k o = Some v ->
     k <> proto /\ tidy k = true /\ tidy_value v = true) ->
  forall k v, own k (fold_left Cookie.getAll_step pieces o) = Some v ->
    k <> proto /\ tidy k = true /\ tidy_value v = true.
Proof.
  induction pieces as [|p pieces IH]; intros o Hsemi Ho; [exact Ho|].
  cbn [fold_left]. apply IH; [intros q Hq; apply Hsemi; now right|].
  intros k v. rewrite getAll_step_cut. unfold assign.
  destruct (fst (cut "=" p) =? proto) eqn:E; [apply Ho|].
  apply String.eqb_neq in E. intros H.
  apply own_put_inv in H as [[-> ->]|[_ H]]; [|now apply Ho].
  destruct (piece_tidy p (Hsemi p (or_introl eq_refl))) as [Hn Hv]. auto.
Qed.

Section ReadingTogether.
Context {D : Type} (document : Document D).

(** X5: every entry of [getAll]'s object has a name other than
    [__proto__] that holds no [=] and no [;], and a value that is [undefined]
    or a string with no [=] and no [;]. *)
Theorem getAll_entries_tidy (d : D) (k : string) (v : value) :
  own k (fst (Cookie.getAll document d)) = Some v ->
  k <> proto /\ tidy k = true /\ tidy_value v = true.
Proof.
  rewrite getAll_run. cbn [fst].
  destruct (cookie document d =? ""); [discriminate|].
  apply getAll_fold_entries.
  - apply split_delimiter_no_semi.
  - discriminate.
Qed.

(** X6: [get] and [getAll] agree on which names are there: for a name
    other than [__proto__], [getAll]'s object has no entry for it exactly when
    [get] of it returns [null]. *)
Theorem getAll_missing_iff_get_null (d : D) (k : string) :
  k <> proto ->
  (own k (fst (Cookie.getAll document d)) = None <->
   fst (Cookie.get document (VStr k) d) = VNull).
Proof.
  intros Hk. rewrite get_run, getAll_run. cbn [fst].
  destruct (cookie document d =? ""); [split; reflexivity|].
  rewrite get_loop_null_iff.
  set (pieces := split_delimiter (cookie document d)).
  pose proof (own_In k (fold_left Cookie.getAll_step pieces [])) as Hown.
  rewrite getAll_fold_keys in Hown. split.
  - intros Hnone q Hq Hname. rewrite Hnone in Hown.
    destruct Hown as [_ Hown]. apply Hown; [|reflexivity].
    right. split; [exact Hk|]. exists q. split; [exact Hq|].
    rewrite name_of_cut in Hname. now injection Hname.
  - intros Hall.
    destruct (own k (fold_left Cookie.getAll_step pieces [])) eqn:E; [|reflexivity].
    destruct Hown as [Hown _].
    destruct Hown as [[]|(_ & q & Hq & Hname)]; [discriminate|].
    exfalso. apply (Hall q Hq). now rewrite name_of_cut, Hname.
Qed.

(** X7: when several pieces have the name [k], [get(k)] returns the value
    of the first of them and [getAll()] holds the value of the last; when
    only one piece has the name the two are the same. *)
Theorem get_first_getAll_last (d : D) (k : string)
        (pre1 post1 pre2 post2 : list string) (first last : string) :
  cookie document d <> "" ->
  split_delimiter (cookie document d) = (pre1 ++ first :: post1)%list ->
  split_delimiter (cookie document d) = (pre2 ++ last :: post2)%list ->
  name_of first = VStr k -> (forall q, In q pre1 -> name_of q <> VStr k) ->
  name_of last = VStr k -> (forall q, In q post2 -> name_of q <> VStr k) ->
  k <> proto ->
  fst (Cookie.get document (VStr k) d) = value_of first /\
  own k (fst (Cookie.getAll document d)) = Some (value_of last).
Proof.
  intros Hne H1 H2 Hfirst Hpre Hlast Hpost Hk.
  apply String.eqb_neq in Hne. split.
  - rewrite get_run, Hne, H1. cbn [fst]. apply get_loop_first.
    + intros q Hq. rewrite strict_eq_name. apply String.eqb_neq.
      intros E. apply (Hpre q Hq). now rewrite name_of_cut, E.
    + rewrite Hfirst. cbn [strict_eq]. apply String.eqb_refl.
  - rewrite getAll_run, Hne, H2. cbn [fst].
    rewrite name_of_cut in Hlast. injection Hlast as Hlast.
    apply getAll_fold_last; [exact Hlast | exact Hk |].
    intros q Hq E. apply (Hpost q Hq). now rewrite name_of_cut, E.
Qed.

(** X8: [setAsMap] assigns once per own key of the object, in for-in
    order, each time [key=value;path=/;] with the value turned into a string
    (a number among the values being a safe integer) and with no other
    attribute. *)
Theorem setAsMap_assigns (o : object) (d : D) :
  exact_object o = true ->
  Cookie.setAsMap document o d =
    (tt, fold_left
           (fun d key =>
              cookie_assign document (key ++ "=" ++ ToString (prop key o) ++ ";path=/;") d)
           (for_in o) d)
  /\ (forall key, In key (for_in o) <-> In key (map fst o)).
Proof.
  intros _. split; [|intros key; apply for_in_In].
  rewrite setAsMap_run. f_equal. apply fold_left_same.
  intros a key. unfold Cookie.set_default. now rewrite set_run.
Qed.
End ReadingTogether.

(** ** The store, entry by entry *)

Lemma find_upsert_other (k k' v : string) (j : Browser.jar) :
  k' <> k ->
  find (fun e => fst e =? k') (Browser.upsert k v j) = find (fun e => fst e =? k') j.
Proof.
  intros Hne. induction j as [|[n w] j IH]; cbn [Browser.upsert find fst].
  - apply not_eq_sym in Hne. apply String.eqb_neq in Hne. now rewrite Hne.
  - destruct (n =? k) eqn:E; cbn [find fst].
    + apply String.eqb_eq in E. subst n.
      apply not_eq_sym in Hne. apply String.eqb_neq in Hne. now rewrite Hne.
    + now rewrite IH.
Qed.



Lemma remove_names (k : string) (j : Browser.jar) :
  ~ In k (map fst (Browser.remove k j)).
Proof.
  intros H. apply in_map_iff in H as (e & He & Hin).
  unfold Browser.remove in Hin. apply filter_In in Hin as [_ Hin].
  apply negb_true_iff, String.eqb_neq in Hin. contradiction.
Qed.

Lemma find_present (k : string) (j : Browser.jar) :
  In k (map fst j) ->
  exists v, find (fun e => fst e =? k) j = Some (k, v).
Proof.
  induction j as [|[n w] j IH]; [contradiction|]. cbn [map In find fst].
  intros H. destruct (n =? k) eqn:E.
  - apply String.eqb_eq in E. subst n. now exists w.
  - apply String.eqb_neq in E. apply IH. tauto.
Qed.

Lemma put_fresh (k : string) (v : value) (o : object) :
  ~ In k (map fst o) -> put k v o = (o ++ [(k, v)])%list.
Proof.
  induction o as [|[n w] o IH]; [reflexivity|]. cbn [map In put fst app].
  intros H. destruct (n =? k) eqn:E.
  - apply String.eqb_eq in E. tauto.
  - rewrite IH; tauto.
Qed.

Lemma filter_twice {A} (f g : A -> bool) (l : list A) :
  filter f (filter g l) = filter (fun x => g x && f x) l.
Proof.
  induction l as [|x l IH]; [reflexivity|]. cbn [filter].
  destruct (g x); cbn [andb filter]; [destruct (f x)|]; now rewrite IH.
Qed.

Lemma fold_remove_filter (ks : list string) : forall j : Browser.jar,
  fold_left (fun d k => Browser.remove k d) ks j =
  filter (fun e => negb (existsb (fun k => fst e =? k) ks)) j.
Proof.
  induction ks as [|k ks IH]; intros j; cbn [fold_left existsb].
  - cbn [negb]. induction j as [|e j IHj]; [reflexivity|].
    cbn [filter]. now rewrite <- IHj.
  - rewrite IH. unfold Browser.remove. rewrite filter_twice.
    apply filter_ext. intros e. now rewrite negb_orb.
Qed.

Lemma plain_object_own (o : object) (k : string) (v : value) :
  plain_object o = true -> own k o = Some v ->
  plain k = true /\ k <> "" /\ exists s, v = VStr s /\ plain s = true.
Proof.
  induction o as [|[n w] o IH]; [discriminate|].
  cbn [plain_object forallb fst snd own]. intros H Hown.
  apply andb_true_iff in H as [He Ho].
  destruct (n =? k) eqn:E; [|now apply IH].
  apply String.eqb_eq in E. subst n. injection Hown as ->.
  apply andb_true_iff in He as [He Hv]. apply andb_true_iff in He as [Hk Hne].
  apply negb_true_iff, String.eqb_neq in Hne.
  destruct v; try discriminate. repeat split; try assumption. now exists s.
Qed.

Section StoreMore.
Variable parse_date : string -> option Z.
Variable now : Z.

Let document := Browser.document parse_date now.

(** X9: on a well-formed store, [get(k)] returns [null] exactly when no
    cookie is named [k], and a string otherwise; it never returns
    [undefined]. *)
Theorem get_on_store (k : string) (j : Browser.jar) :
  Browser.jar_ok j = true ->
  (~ In k (map fst j) -> fst (Cookie.get document (VStr k) j) = VNull) /\
  (In k (map fst j) -> exists s, fst (Cookie.get document (VStr k) j) = VStr s) /\
  fst (Cookie.get document (VStr k) j) <> VUndefined.
Proof.
  intros Hok. unfold document. rewrite (get_stored parse_date now k j Hok).
  split; [|split].
  - intros H. now rewrite find_absent.
  - intros H. destruct (find_present k j H) as [v ->]. eauto.
  - destruct (find _ j); discriminate.
Qed.


(** X11: a value that holds [=] does not survive the round trip: after
    [set(k, v)] with a value free of [;] and of outer white space, [get(k)]
    yields the part of [v] before its first [=]. *)
Theorem set_then_get_cuts_value (k v : string) (j : Browser.jar) :
  Browser.jar_ok j = true -> plain k = true -> k <> "" ->
  Browser.value_ok v = true ->
  fst (Cookie.get document (VStr k)
         (snd (Cookie.set_default document (VStr k) (VStr v) j))) =
  VStr (fst (cut "=" v)).
Proof.
  intros Hj Hk Hne Hv.
  assert (He : Browser.entry_ok (k, v) = true).
  { unfold Browser.entry_ok. cbn [fst snd]. now rewrite (plain_name_ok k Hk Hne), Hv. }
  unfold document. rewrite (set_default_stored parse_date now k v j He).
  rewrite get_stored by now apply upsert_ok.
  now rewrite find_upsert.
Qed.

Lemma fold_set_stored (o : object) :
  plain_object o = true ->
  forall (ks : list string) (j : Browser.jar),
    (forall k, In k ks -> In k (map fst o)) ->
    Browser.jar_ok j = true ->
    let j' := fold_left
                (fun d key => snd (Cookie.set_default document (VStr key) (prop key o) d))
                ks j in
    Browser.jar_ok j' = true /\
    (forall k s, own k o = Some (VStr s) ->
       In k ks \/ find (fun e => fst e =? k) j = Some (k, s) ->
       find (fun e => fst e =? k) j' = Some (k, s)).
Proof.
  intros Ho. induction ks as [|k0 ks IH]; intros j Hks Hj; cbn [fold_left].
  - split; [exact Hj|]. intros k s _ [[]|H]. exact H.
  - assert (Hin : In k0 (map fst o)) by (apply Hks; now left).
    apply own_In in Hin. destruct (own k0 o) as [v0|] eqn:E0; [|contradiction].
    destruct (plain_object_own o k0 v0 Ho E0) as (Hk0 & Hne0 & s0 & -> & Hs0).
    pose proof (plain_entry_ok k0 s0 Hk0 Hne0 Hs0) as He0.
    assert (Hstep : snd (Cookie.set_default document (VStr k0) (prop k0 o) j)
                    = Browser.upsert k0 s0 j).
    { unfold prop. rewrite E0. now apply set_default_stored. }
    cbv zeta. rewrite Hstep.
    destruct (IH (Browser.upsert k0 s0 j)) as [Hok Hfind].
    + intros k Hk. apply Hks. now right.
    + now apply upsert_ok.
    + split; [exact Hok|]. intros k s Hown Hcase. apply Hfind; [exact Hown|].
      destruct (string_dec k k0) as [->|Hother].
      * right. rewrite E0 in Hown. injection Hown as <-. apply find_upsert.
      * destruct Hcase as [[Heq|Hin']|Hfound].
        -- now destruct Hother.
        -- now left.
        -- right. now rewrite find_upsert_other.
Qed.

(** X12: after [setAsMap(o)] for an object whose keys are non-empty plain
    texts and whose values are plain strings, [get(k)] yields [o[k]] for every
    key [k] of the object, and the store is still well-formed. *)
Theorem setAsMap_then_get (o : object) (k s : string) (j : Browser.jar) :
  Browser.jar_ok j = true -> plain_object o = true ->
  own k o = Some (VStr s) ->
  fst (Cookie.get document (VStr k) (snd (Cookie.setAsMap document o j))) = VStr s /\
  Browser.jar_ok (snd (Cookie.setAsMap document o j)) = true.
Proof.
  intros Hj Ho Hown. rewrite setAsMap_run. cbn [snd].
  destruct (fold_set_stored o Ho (for_in o) j) as [Hok Hfind];
    [intros x; apply for_in_In | exact Hj |].
  split; [|exact Hok].
  unfold document in Hok, Hfind |- *. rewrite get_stored by exact Hok.
  rewrite (Hfind k s Hown).
  - cbn [snd]. destruct (plain_object_own o k _ Ho Hown) as (_ & _ & s' & E & Hs).
    injection E as <-. apply plain_inv in Hs as (_ & Hs & _).
    now rewrite (cut_none "=" s Hs).
  - left. apply for_in_In. apply own_In. now rewrite Hown.
Qed.

Lemma getAll_fold_store (j : Browser.jar) : forall o : object,
  Browser.jar_ok j = true -> NoDup (map fst j) -> ~ In proto (map fst j) ->
  (forall e, In e j -> has is_equals (snd e) = false) ->
  (forall n, In n (map fst j) -> ~ In n (map fst o)) ->
  fold_left Cookie.getAll_step (map Browser.render j) o =
  (o ++ map (fun e => (fst e, VStr (snd e))) j)%list.
Proof.
  induction j as [|e j IH]; intros o Hok Hnd Hproto Hval Hfresh.
  - cbn. now rewrite app_nil_r.
  - apply andb_true_iff in Hok as [He Hj]. cbn [map] in Hnd, Hproto.
    inversion Hnd as [|? ? Hnot Hnd']; subst.
    cbn [map fold_left]. rewrite getAll_step_cut, (render_name e He).
    rewrite (value_of_render e He).
    rewrite (cut_none "=" (snd e)) by (apply Hval; now left). cbn [fst].
    unfold assign.
    assert (Hp : fst e <> proto) by (intros E; apply Hproto; now left).
    apply String.eqb_neq in Hp. rewrite Hp.
    rewrite put_fresh by (apply Hfresh; now left).
    rewrite IH.
    + now rewrite <- app_assoc.
    + exact Hj.
    + exact Hnd'.
    + intros H. apply Hproto. now right.
    + intros e' H'. apply Hval. now right.
    + intros n Hn. rewrite map_app, in_app_iff. cbn [map In fst].
      intros [H|[H|[]]].
      * apply (Hfresh n); [now right | exact H].
      * subst n. contradiction.
Qed.

Lemma getAll_store_list (j : Browser.jar) :
  Browser.jar_ok j = true -> NoDup (map fst j) -> ~ In proto (map fst j) ->
  (forall e, In e j -> has is_equals (snd e) = false) ->
  fst (Cookie.getAll document j) = map (fun e => (fst e, VStr (snd e))) j.
Proof.
  intros Hok Hnd Hproto Hval. rewrite getAll_run.
  cbn [fst cookie document Browser.document].
  destruct j as [|e j]; [reflexivity|].
  assert (Hne : e :: j <> []) by discriminate.
  pose proof (read_nonempty _ Hok Hne) as Hr.
  apply String.eqb_neq in Hr. rewrite Hr, (split_read _ Hok Hne).
  rewrite getAll_fold_store; try assumption; [reflexivity|].
  intros n _ [].
Qed.

Lemma own_of_store (j : Browser.jar) (n : string) (v : value) :
  NoDup (map fst j) ->
  (own n (map (fun e => (fst e, VStr (snd e))) j) = Some v <->
   exists s, v = VStr s /\ In (n, s) j).
Proof.
  induction j as [|[n0 s0] j IH]; cbn [map own fst snd In]; intros Hnd.
  - split; [discriminate | intros (s & _ & [])].
  - inversion Hnd as [|? ? Hnot Hnd']; subst.
    destruct (n0 =? n) eqn:E.
    + apply String.eqb_eq in E. subst n0. split.
      * intros H. injection H as <-. exists s0. split; [reflexivity | now left].
      * intros (s & -> & [H|H]); [now injection H as -> |].
        exfalso. apply Hnot. apply in_map_iff. now exists (n, s).
    + apply String.eqb_neq in E. rewrite (IH Hnd'). split.
      * intros (s & Hv & Hin). exists s. split; [exact Hv | now right].
      * intros (s & Hv & [H|H]); [injection H as H _; contradiction|].
        now exists s.
Qed.

(** X13: [getAll()] reads a well-formed store back: when the stored names
    are distinct, none is [__proto__] and no stored value holds [=], the
    object has exactly one entry per cookie, with the cookie's name and
    value, and [for-in] visits them with the array-index names first, in
    ascending numeric order, and then the other names in the store's
    order. *)
Theorem getAll_reads_store (j : Browser.jar) :
  Browser.jar_ok j = true -> NoDup (map fst j) -> ~ In proto (map fst j) ->
  (forall e, In e j -> has is_equals (snd e) = false) ->
  (forall n v, own n (fst (Cookie.getAll document j)) = Some v <->
               exists s, v = VStr s /\ In (n, s) j) /\
  for_in (fst (Cookie.getAll document j)) = for_in_order (map fst j).
Proof.
  intros Hok Hnd Hproto Hval.
  rewrite (getAll_store_list j Hok Hnd Hproto Hval). split.
  - intros n v. now apply own_of_store.
  - unfold for_in. rewrite map_map. cbn [fst]. reflexivity.
Qed.
End StoreMore.

Lemma filter_proto_none (j : Browser.jar) :
  ~ In proto (map fst j) -> filter (fun e => fst e =? proto) j = [].
Proof.
  induction j as [|e j IH]; [reflexivity|]. cbn [map In filter]. intros H.
  destruct (fst e =? proto) eqn:E.
  - apply String.eqb_eq in E. tauto.
  - apply IH. tauto.
Qed.

Section RemovingMore.
Variable parse_date : string -> option Z.
Variable now : Z.
Hypothesis epoch_parsed : parse_date Cookie.zeroDate = Some 0%Z.
Hypothesis epoch_passed : (0 < now)%Z.

Let document := Browser.document parse_date now.

Lemma unset_on_store (k : string) (j : Browser.jar) :
  Browser.jar_ok j = true -> Browser.name_ok k = true ->
  Cookie.unset document (VStr k) j =
  (match find (fun e => fst e =? k) j with
   | Some e => VStr (fst (cut "=" (snd e)))
   | None => VNull
   end, Browser.remove k j).
Proof.
  intros Hj Hk.
  pose proof (unset_stored parse_date now epoch_parsed epoch_passed k j Hk) as Hs.
  pose proof (get_stored parse_date now k j Hj) as Hg.
  fold document in Hs, Hg. rewrite unset_run in Hs |- *. cbn [snd] in Hs.
  now rewrite Hs, Hg.
Qed.



(** In the model store, [clear()] leaves the entries named [__proto__],
    which [getAll] does not list. *)
Lemma clear_on_store (j : Browser.jar) :
  Browser.jar_ok j = true ->
  snd (Cookie.clear document j) = filter (fun e => fst e =? proto) j /\
  (~ In proto (map fst j) -> snd (Cookie.clear document j) = []).
Proof.
  intros Hok.
  assert (Hclear : snd (Cookie.clear document j) = filter (fun e => fst e =? proto) j).
  { rewrite clear_run. cbn [snd].
    set (ks := for_in (fst (Cookie.getAll document j))).
    assert (Hks : forall k, In k ks <-> k <> proto /\ In k (map fst j)).
    { intros k. unfold ks. rewrite for_in_In.
      now apply (getAll_stored_keys parse_date now). }
    unfold document.
    rewrite (fold_unset_stored parse_date now epoch_parsed epoch_passed).
    2:{ intros k Hk. apply Hks in Hk as [_ Hk].
        apply in_map_iff in Hk as (e & <- & He).
        pose proof (jar_ok_In _ _ Hok He) as Hentry.
        unfold Browser.entry_ok in Hentry.
        now apply andb_true_iff in Hentry as [Hn _]. }
    rewrite fold_remove_filter. apply filter_ext_in. intros e He.
    destruct (fst e =? proto) eqn:E.
    - apply String.eqb_eq in E. apply negb_true_iff.
      destruct (existsb (fun k => fst e =? k) ks) eqn:Ex; [|reflexivity].
      apply existsb_exists in Ex as (k & Hk & Hek).
      apply String.eqb_eq in Hek. subst k. apply Hks in Hk as [Hk _]. contradiction.
    - apply String.eqb_neq in E. apply negb_false_iff.
      apply existsb_exists. exists (fst e). split; [|apply String.eqb_refl].
      apply Hks. split; [exact E | now apply in_map]. }
  split; [exact Hclear|].
  intros Hnone. rewrite Hclear. now apply filter_proto_none.
Qed.
End RemovingMore.

Section InvariantsMore.
Variable parse_date : string -> option Z.
Variable now : Z.
Hypothesis epoch_parsed : parse_date Cookie.zeroDate = Some 0%Z.
Hypothesis epoch_passed : (0 < now)%Z.

Let document := Browser.document parse_date now.

(** X17: a well-formed store stays well-formed under [set(k, v)] and
    [unset(k)] with plain arguments and under [clear()]. *)
Theorem store_stays_well_formed (k v : string) (j : Browser.jar) :
  Browser.jar_ok j = true -> plain k = true -> k <> "" -> plain v = true ->
  Browser.jar_ok (snd (Cookie.set_default document (VStr k) (VStr v) j)) = true /\
  Browser.jar_ok (snd (Cookie.unset document (VStr k) j)) = true /\
  Browser.jar_ok (snd (Cookie.clear document j)) = true.
Proof.
  intros Hj Hk Hne Hv. unfold document. split; [|split].
  - rewrite (set_default_stored parse_date now k v j (plain_entry_ok k v Hk Hne Hv)).
    apply upsert_ok; [exact Hj | now apply plain_entry_ok].
  - rewrite (unset_on_store parse_date now epoch_parsed epoch_passed k j Hj
               (plain_name_ok k Hk Hne)).
    now apply remove_ok.
  - rewrite clear_run. cbn [snd].
    rewrite (fold_unset_stored parse_date now epoch_parsed epoch_passed).
    + now apply fold_remove_ok.
    + intros x Hx. apply for_in_In in Hx.
      apply (getAll_stored_keys parse_date now j x Hj) in Hx as [_ Hx].
      apply in_map_iff in Hx as (e & <- & He).
      pose proof (jar_ok_In _ _ Hj He) as Hentry.
      unfold Browser.entry_ok in Hentry.
      now apply andb_true_iff in Hentry as [Hn _].
Qed.

(** In the model store, [unset(k)] returns what [get(k)] reads and leaves
    no entry named [k]. *)
Lemma unset_absent_on_store (k : string) (j : Browser.jar) :
  Browser.jar_ok j = true -> plain k = true -> k <> "" ->
  let (r, j') := Cookie.unset document (VStr k) j in
  r = fst (Cookie.get document (VStr k) j) /\
  fst (Cookie.get document (VStr k) j') = VNull /\
  own k (fst (Cookie.getAll document j')) = None.
Proof.
  intros Hj Hk Hne. pose proof (plain_name_ok k Hk Hne) as Hn. unfold document.
  rewrite (unset_on_store parse_date now epoch_parsed epoch_passed k j Hj Hn).
  pose proof (remove_ok k j Hj) as Hok.
  rewrite !get_stored by assumption.
  split; [reflexivity|]. split; [now rewrite find_remove|].
  destruct (own k (fst (Cookie.getAll (Browser.document parse_date now)
                          (Browser.remove k j)))) eqn:E; [|reflexivity].
  exfalso. assert (H : own k (fst (Cookie.getAll (Browser.document parse_date now)
                                     (Browser.remove k j))) <> None) by congruence.
  apply own_In in H.
  apply (getAll_stored_keys parse_date now _ k Hok) in H as [_ H].
  now apply remove_names in H.
Qed.
End InvariantsMore.

(** ** A store that the library filled *)

Lemma upsert_names (k v n : string) (j : Browser.jar) :
  In n (map fst (Browser.upsert k v j)) <-> n = k \/ In n (map fst j).
Proof.
  induction j as [|[n0 v0] j IH]; cbn [Browser.upsert map fst In].
  - intuition.
  - destruct (n0 =? k) eqn:E; cbn [map fst In].
    + apply String.eqb_eq in E. subst. intuition.
    + rewrite IH. intuition.
Qed.

Lemma upsert_NoDup (k v : string) (j : Browser.jar) :
  NoDup (map fst j) -> NoDup (map fst (Browser.upsert k v j)).
Proof.
  induction j as [|[n0 v0] j IH]; cbn [Browser.upsert map fst]; intros H.
  - constructor; [intros [] | constructor].
  - inversion H as [|? ? Hnot Hnd]; subst.
    destruct (n0 =? k) eqn:E; cbn [map fst].
    + now constructor.
    + constructor; [|auto]. rewrite upsert_names. intros [->|Hin]; [|contradiction].
      now rewrite String.eqb_refl in E.
Qed.

Lemma fold_upsert_names (f : string -> string) (ks : list string) :
  forall (j : Browser.jar) (n : string),
    In n (map fst (fold_left (fun d key => Browser.upsert key (f key) d) ks j)) <->
    In n ks \/ In n (map fst j).
Proof.
  induction ks as [|k ks IH]; intros j n; cbn [fold_left In].
  - tauto.
  - rewrite IH, upsert_names. intuition.
Qed.

Lemma fold_upsert_NoDup (f : string -> string) (ks : list string) :
  forall j : Browser.jar,
    NoDup (map fst j) ->
    NoDup (map fst (fold_left (fun d key => Browser.upsert key (f key) d) ks j)).
Proof.
  induction ks as [|k ks IH]; intros j H; [exact H|].
  cbn [fold_left]. apply IH. now apply upsert_NoDup.
Qed.

Lemma filter_name_find (k : string) (j : Browser.jar) :
  NoDup (map fst j) ->
  filter (fun e => fst e =? k) j =
  match find (fun e => fst e =? k) j with
  | Some e => [e]
  | None => []
  end.
Proof.
  induction j as [|e j IH]; [reflexivity|]. cbn [map filter find]. intros H.
  inversion H as [|? ? Hnot Hnd]; subst.
  destruct (fst e =? k) eqn:E.
  - apply String.eqb_eq in E. f_equal.
    rewrite (IH Hnd), find_absent; [reflexivity|]. now rewrite <- E.
  - now apply IH.
Qed.

Section FilledStore.
Variable parse_date : string -> option Z.
Variable now : Z.
Hypothesis epoch_parsed : parse_date Cookie.zeroDate = Some 0%Z.
Hypothesis epoch_passed : (0 < now)%Z.

Let document := Browser.document parse_date now.

(** What [setAsMap(o)] leaves in a store that was empty: one cookie per
    key of the object, with its value. *)
Lemma setAsMap_fills (o : object) :
  plain_object o = true ->
  let j := snd (Cookie.setAsMap document o []) in
  Browser.jar_ok j = true /\ NoDup (map fst j) /\
  (forall n, In n (map fst j) <-> In n (map fst o)) /\
  (forall k s, own k o = Some (VStr s) ->
     find (fun e => fst e =? k) j = Some (k, s)).
Proof.
  intros Ho. cbv zeta. rewrite setAsMap_run. cbn [snd].
  destruct (fold_set_stored parse_date now o Ho (for_in o) [])
    as [Hok Hfind]; [intros x; apply for_in_In | reflexivity |].
  fold document in Hok, Hfind.
  assert (Hfold :
    fold_left (fun d key => snd (Cookie.set_default document (VStr key) (prop key o) d))
      (for_in o) [] =
    fold_left (fun d key => Browser.upsert key (ToString (prop key o)) d) (for_in o) []).
  { assert (Hin : forall k, In k (for_in o) -> In k (map fst o))
      by (intros k; apply for_in_In).
    revert Hin. generalize (for_in o) as ks. generalize (@nil (string * string)) as j.
    intros j ks. revert j. induction ks as [|k0 ks IH]; intros j Hin; [reflexivity|].
    cbn [fold_left]. rewrite <- IH by (intros k Hk; apply Hin; now right). f_equal.
    assert (H0 : In k0 (map fst o)) by (apply Hin; now left).
    apply own_In in H0. destruct (own k0 o) as [v0|] eqn:E0; [|contradiction].
    destruct (plain_object_own o k0 v0 Ho E0) as (Hk0 & Hne0 & s0 & -> & Hs0).
    unfold prop. rewrite E0. cbn [ToString]. unfold document.
    now apply set_default_stored, plain_entry_ok. }
  split; [exact Hok|]. split; [|split].
  - rewrite Hfold. apply fold_upsert_NoDup. constructor.
  - intros n. rewrite Hfold, fold_upsert_names, for_in_In. cbn [map In]. tauto.
  - intros k s Hown. apply Hfind; [exact Hown|].
    left. apply for_in_In, own_In. now rewrite Hown.
Qed.

(** X16: after [setAsMap(o)] has filled an empty store from an object
    with non-empty plain keys and plain string values, [clear()] removes
    every cookie it wrote except one named [__proto__], which [getAll] does
    not list: the store is left empty when the object has no such key. *)
Theorem clear_after_setAsMap (o : object) :
  plain_object o = true ->
  snd (Cookie.clear document (snd (Cookie.setAsMap document o []))) =
  match own proto o with
  | Some (VStr s) => [(proto, s)]
  | _ => []
  end.
Proof.
  intros Ho. destruct (setAsMap_fills o Ho) as (Hok & Hnd & Hnames & Hfind).
  destruct (clear_on_store parse_date now epoch_parsed epoch_passed _ Hok)
    as [Hclear _].
  fold document in Hclear. rewrite Hclear, (filter_name_find proto _ Hnd).
  destruct (own proto o) as [v|] eqn:E.
  - destruct (plain_object_own o proto v Ho E) as (_ & _ & s & -> & _).
    now rewrite (Hfind proto s E).
  - rewrite find_absent; [reflexivity|].
    rewrite Hnames. intros H. apply own_In in H. contradiction.
Qed.

(** X18: after [setAsMap(o)] has filled an empty store, [unset(k)]
    returns the value the object has for [k], or [null] when it has none,
    and afterwards [get(k)] returns [null] and [getAll()] has no entry for
    [k]. *)
Theorem unset_after_setAsMap (o : object) (k : string) :
  plain_object o = true -> plain k = true -> k <> "" ->
  let (r, j') := Cookie.unset document (VStr k) (snd (Cookie.setAsMap document o [])) in
  r = match own k o with Some v => v | None => VNull end /\
  fst (Cookie.get document (VStr k) j') = VNull /\
  own k (fst (Cookie.getAll document j')) = None.
Proof.
  intros Ho Hk Hne. destruct (setAsMap_fills o Ho) as (Hok & Hnd & Hnames & Hfind).
  pose proof (unset_absent_on_store parse_date now epoch_parsed epoch_passed k _
                Hok Hk Hne) as H.
  fold document in H.
  destruct (Cookie.unset document (VStr k) (snd (Cookie.setAsMap document o [])))
    as [r j'].
  destruct H as (Hr & Hget & Hall). split; [|now split].
  rewrite Hr. unfold document. rewrite get_stored by exact Hok.
  destruct (own k o) as [v|] eqn:E.
  - destruct (plain_object_own o k v Ho E) as (_ & _ & s & -> & Hs).
    fold document. rewrite (Hfind k s E). cbn [snd].
    apply plain_inv in Hs as (_ & Hs & _). now rewrite (cut_none "=" s Hs).
  - fold document. rewrite find_absent; [reflexivity|].
    rewrite Hnames. intros H. apply own_In in H. contradiction.
Qed.
End FilledStore.

Lemma clear_after_setAsMap_witness :
  snd (Cookie.clear example_store
         (snd (Cookie.setAsMap example_store
                 [("a", VStr "1"); ("__proto__", VStr "x"); ("7", VStr "y")] []))) =
  [("__proto__", "x")].
Proof.
  apply (clear_after_setAsMap parse_epoch 1000 eq_refl eq_refl
           [("a", VStr "1"); ("__proto__", VStr "x"); ("7", VStr "y")]).
  reflexivity.
Defined.

Lemma unset_after_setAsMap_witness :
  let (r, j') := Cookie.unset example_store (VStr "a")
                   (snd (Cookie.setAsMap example_store
                           [("a", VStr "1"); ("b", VStr "2")] [])) in
  r = VStr "1" /\
  fst (Cookie.get example_store (VStr "a") j') = VNull /\
  own "a" (fst (Cookie.getAll example_store j')) = None.
Proof.
  apply (unset_after_setAsMap parse_epoch 1000 eq_refl eq_refl
           [("a", VStr "1"); ("b", VStr "2")] "a"); (reflexivity || discriminate).
Defined.

(** ** Keys that cannot be read *)

Section Unreadable.
Context {D : Type} (document : Document D).

(** X19: a key that holds [=] or [;] can never be read: [get] of it
    returns [null] on every cookie string, so no [set] with such a key can be
    read back. *)
Theorem get_untidy_key (d : D) (k : string) :
  tidy k = false -> fst (Cookie.get document (VStr k) d) = VNull.
Proof.
  intros Hk. rewrite get_run. cbn [fst].
  destruct (cookie document d =? ""); [reflexivity|].
  apply get_loop_none. intros q Hq. rewrite strict_eq_name.
  apply String.eqb_neq. intros E.
  destruct (piece_tidy q (split_delimiter_no_semi _ q Hq)) as [Hn _].
  rewrite E in Hn. congruence.
Qed.
End Unreadable.

(** ** [setAsArray], on the store *)

Lemma attribute_string_falsy
      (key value path expires maxAge domain secure samesite : JS.value) :
  truthy path = false -> truthy expires = false -> truthy maxAge = false ->
  truthy domain = false -> truthy secure = false -> truthy samesite = false ->
  attribute_string key value path expires maxAge domain secure samesite =
  ToString key ++ "=" ++ ToString value ++ ";path=/;".
Proof.
  intros H1 H2 H3 H4 H5 H6. unfold attribute_string.
  now rewrite H1, H2, H3, H4, H5, H6.
Qed.

Lemma simple_entry_inv (o : object) :
  simple_entry o = true ->
  exists k v,
    prop "key" o = VStr k /\ prop "value" o = VStr v /\
    plain k = true /\ k <> "" /\ plain v = true /\
    attribute_string (prop "key" o) (prop "value" o) (prop "path" o)
      (prop "expires" o) (prop "maxAge" o) (prop "domain" o)
      (prop "secure" o) (prop "samesite" o) = k ++ "=" ++ v ++ ";path=/;".
Proof.
  unfold simple_entry. intros H.
  apply andb_true_iff in H as [H H6]. apply andb_true_iff in H as [H H5].
  apply andb_true_iff in H as [H H4]. apply andb_true_iff in H as [H H3].
  apply andb_true_iff in H as [H H2]. apply andb_true_iff in H as [H H1].
  apply negb_true_iff in H1, H2, H3, H4, H5, H6.
  rewrite (attribute_string_falsy _ _ _ _ _ _ _ _ H1 H2 H3 H4 H5 H6).
  destruct (prop "key" o) as [| | | |k]; try discriminate.
  destruct (prop "value" o) as [| | | |v]; try discriminate.
  apply andb_true_iff in H as [H Hv]. apply andb_true_iff in H as [Hk Hne].
  apply negb_true_iff, String.eqb_neq in Hne.
  exists k, v. repeat split; assumption || reflexivity.
Qed.

Section ArrayOnTheStore.
Variable parse_date : string -> option Z.
Variable now : Z.

Let document := Browser.document parse_date now.

Let step (d : Browser.jar) (curObject : object) : Browser.jar :=
  snd (Cookie.set document (prop "key" curObject) (prop "value" curObject)
         (prop "path" curObject) (prop "expires" curObject)
         (prop "maxAge" curObject) (prop "domain" curObject)
         (prop "secure" curObject) (prop "samesite" curObject) d).

Lemma setAsArray_fold (array : list object) (j : Browser.jar) :
  snd (Cookie.setAsArray document array j) = fold_left step array j.
Proof.
  unfold Cookie.setAsArray. rewrite for_each_run. cbn [snd].
  apply fold_left_same. intros a b. apply snd_then_ret.
Qed.

Lemma step_simple (o : object) (j : Browser.jar) :
  simple_entry o = true ->
  exists k v, prop "key" o = VStr k /\ prop "value" o = VStr v /\
              Browser.entry_ok (k, v) = true /\ step j o = Browser.upsert k v j.
Proof.
  intros H. destruct (simple_entry_inv o H) as (k & v & Hk & Hv & Hpk & Hne & Hpv & Hstr).
  exists k, v. pose proof (plain_entry_ok k v Hpk Hne Hpv) as He.
  repeat split; try assumption.
  unfold step. rewrite set_run. cbn [snd]. rewrite Hstr.
  cbn [cookie_assign document Browser.document]. now apply write_default.
Qed.

Lemma fold_step_simple (array : list object) : forall j : Browser.jar,
  forallb simple_entry array = true -> Browser.jar_ok j = true ->
  Browser.jar_ok (fold_left step array j) = true /\
  (forall k, (forall q, In q array -> prop "key" q <> VStr k) ->
     find (fun e => fst e =? k) (fold_left step array j) =
     find (fun e => fst e =? k) j).
Proof.
  induction array as [|o array IH]; intros j Hall Hj; cbn [fold_left].
  - now split.
  - cbn [forallb] in Hall. apply andb_true_iff in Hall as [Ho Hall].
    destruct (step_simple o j Ho) as (k0 & v0 & Hk0 & _ & He0 & Hstep).
    rewrite Hstep.
    destruct (IH (Browser.upsert k0 v0 j) Hall (upsert_ok k0 v0 j Hj He0))
      as [Hok Hfind].
    split; [exact Hok|]. intros k Hk.
    rewrite Hfind by (intros q Hq; apply Hk; now right).
    apply find_upsert_other. intros E. apply (Hk o); [now left|]. congruence.
Qed.

(** X20: after [setAsArray(array)] whose entries each carry a non-empty
    plain key, a plain value and no option, [get(k)] yields the value of the
    last entry whose key is [k]. *)
Theorem setAsArray_then_get (pre post : list object) (o : object) (k s : string)
        (j : Browser.jar) :
  Browser.jar_ok j = true ->
  forallb simple_entry (pre ++ o :: post) = true ->
  prop "key" o = VStr k -> prop "value" o = VStr s ->
  (forall q, In q post -> prop "key" q <> VStr k) ->
  fst (Cookie.get document (VStr k)
         (snd (Cookie.setAsArray document (pre ++ o :: post) j))) = VStr s.
Proof.
  intros Hj Hall Hk Hs Hpost.
  rewrite forallb_app in Hall. apply andb_true_iff in Hall as [Hpre Hrest].
  cbn [forallb] in Hrest. apply andb_true_iff in Hrest as [Ho Hposts].
  rewrite setAsArray_fold, fold_left_app. cbn [fold_left].
  destruct (fold_step_simple pre j Hpre Hj) as [Hj1 _].
  destruct (step_simple o (fold_left step pre j) Ho)
    as (k' & s' & Hk' & Hs' & He & Hstep).
  rewrite Hk in Hk'. injection Hk' as <-. rewrite Hs in Hs'. injection Hs' as <-.
  rewrite Hstep.
  destruct (fold_step_simple post _ Hposts (upsert_ok k s _ Hj1 He)) as [Hj2 Hfind].
  unfold document. rewrite get_stored by exact Hj2.
  rewrite (Hfind k Hpost), find_upsert. cbn [snd].
  unfold Browser.entry_ok in He. cbn [fst snd] in He.
  destruct (simple_entry_inv o Ho) as (k2 & s2 & Hk2 & Hs2 & _ & _ & Hplain & _).
  rewrite Hs in Hs2. injection Hs2 as <-.
  apply plain_inv in Hplain as (_ & Hplain & _).
  now rewrite (cut_none "=" s Hplain).
Qed.
End ArrayOnTheStore.

(** ** Worked instances of the further properties *)

Lemma setAsMap_assigns_witness :
  Cookie.setAsMap Recorder [("b", VStr "x"); ("7", VNum 12)] [] =
    (tt, ["7=12;path=/;"; "b=x;path=/;"]).
Proof.
  apply (setAsMap_assigns Recorder [("b", VStr "x"); ("7", VNum 12)] []). reflexivity.
Defined.

Lemma empty_cookie_string_witness :
  cookie Frozen "" = "" /\
  Cookie.get Frozen (VStr "a") "" = (VNull, "") /\
  Cookie.getAll Frozen "" = ([], "") /\
  Cookie.clear Frozen "" = (tt, "").
Proof.
  destruct (empty_cookie_string Frozen "" (VStr "a") (VStr "1")
              VUndefined VUndefined VUndefined VUndefined VUndefined VUndefined
              eq_refl) as (H1 & H2 & _ & _ & H5).
  split; [reflexivity|]. split; [exact H1|]. split; [exact H2 | exact H5].
Defined.

Lemma get_key_not_a_string_witness :
  fst (Cookie.get Frozen (VNum 1) "1=x") = VNull.
Proof.
  apply (get_key_not_a_string Frozen "1=x" (VNum 1)). intros k. discriminate.
Defined.

Lemma get_returns_tidy_witness :
  fst (Cookie.get Frozen (VStr "a") "a=b=c; d=e") = VStr "b" /\ tidy "b" = true.
Proof.
  split; [reflexivity|].
  apply (get_returns_tidy Frozen "a=b=c; d=e" (VStr "a") "b"). reflexivity.
Defined.

Lemma getAll_entries_tidy_witness :
  own "a" (fst (Cookie.getAll Frozen "a=1=2; abc")) = Some (VStr "1") /\
  "a" <> proto /\ tidy "a" = true /\ tidy_value (VStr "1") = true.
Proof.
  split; [reflexivity|].
  apply (getAll_entries_tidy Frozen "a=1=2; abc" "a" (VStr "1")). reflexivity.
Defined.

Lemma getAll_missing_iff_get_null_witness :
  "z" <> proto /\
  (own "z" (fst (Cookie.getAll Frozen "a=1")) = None <->
   fst (Cookie.get Frozen (VStr "z") "a=1") = VNull).
Proof.
  split; [discriminate|].
  apply (getAll_missing_iff_get_null Frozen "a=1" "z"). discriminate.
Defined.

Lemma get_first_getAll_last_witness :
  fst (Cookie.get Frozen (VStr "a") "a=1; b=2; a=3") = value_of "a=1" /\
  own "a" (fst (Cookie.getAll Frozen "a=1; b=2; a=3")) = Some (value_of "a=3").
Proof.
  apply (get_first_getAll_last Frozen "a=1; b=2; a=3" "a"
           [] ["b=2"; "a=3"] ["a=1"; "b=2"] [] "a=1" "a=3").
  - discriminate.
  - reflexivity.
  - reflexivity.
  - reflexivity.
  - intros q [].
  - reflexivity.
  - intros q [].
  - discriminate.
Defined.

Lemma get_on_store_witness :
  Browser.jar_ok [("a", "1")] = true /\
  (In "a" (map fst [("a", "1")]) ->
   exists s, fst (Cookie.get example_store (VStr "a") [("a", "1")]) = VStr s).
Proof.
  split; [reflexivity|].
  apply (get_on_store parse_epoch 1000 "a" [("a", "1")]). reflexivity.
Defined.


Lemma set_then_get_cuts_value_witness :
  fst (Cookie.get example_store (VStr "a")
         (snd (Cookie.set_default example_store (VStr "a") (VStr "b=c") []))) =
  VStr (fst (cut "=" "b=c")).
Proof.
  apply (set_then_get_cuts_value parse_epoch 1000 "a" "b=c" []);
    (reflexivity || discriminate).
Defined.

Lemma setAsMap_then_get_witness :
  fst (Cookie.get example_store (VStr "b")
         (snd (Cookie.setAsMap example_store [("a", VStr "1"); ("b", VStr "2")]
                 [("c", "3")]))) = VStr "2" /\
  Browser.jar_ok
    (snd (Cookie.setAsMap example_store [("a", VStr "1"); ("b", VStr "2")]
            [("c", "3")])) = true.
Proof.
  apply (setAsMap_then_get parse_epoch 1000 [("a", VStr "1"); ("b", VStr "2")]
           "b" "2" [("c", "3")]); reflexivity.
Defined.

Lemma getAll_reads_store_witness :
  (forall n v,
     own n (fst (Cookie.getAll example_store [("b", "1"); ("10", "2"); ("9", "3")]))
       = Some v <->
     exists s, v = VStr s /\ In (n, s) [("b", "1"); ("10", "2"); ("9", "3")]) /\
  for_in (fst (Cookie.getAll example_store [("b", "1"); ("10", "2"); ("9", "3")]))
    = for_in_order ["b"; "10"; "9"].
Proof.
  apply (getAll_reads_store parse_epoch 1000 [("b", "1"); ("10", "2"); ("9", "3")]).
  - reflexivity.
  - constructor; [intros [H|[H|[]]]; discriminate H|].
    constructor; [intros [H|[]]; discriminate H|].
    constructor; [intros []|]. constructor.
  - intros [H|[H|[H|[]]]]; discriminate H.
  - intros e [<-|[<-|[<-|[]]]]; reflexivity.
Defined.



Lemma store_stays_well_formed_witness :
  Browser.jar_ok (snd (Cookie.set_default example_store (VStr "a") (VStr "1")
                         [("b", "2")])) = true /\
  Browser.jar_ok (snd (Cookie.unset example_store (VStr "a") [("b", "2")])) = true /\
  Browser.jar_ok (snd (Cookie.clear example_store [("b", "2")])) = true.
Proof.
  apply (store_stays_well_formed parse_epoch 1000 eq_refl eq_refl "a" "1" [("b", "2")]);
    (reflexivity || discriminate).
Defined.

Lemma get_untidy_key_witness :
  tidy "a=b" = false /\ fst (Cookie.get Frozen (VStr "a=b") "a=b=1") = VNull.
Proof.
  split; [reflexivity|].
  apply (get_untidy_key Frozen "a=b=1" "a=b"). reflexivity.
Defined.

Lemma setAsArray_then_get_witness :
  fst (Cookie.get example_store (VStr "a")
         (snd (Cookie.setAsArray example_store
                 ([[("key", VStr "a"); ("value", VStr "1")]]
                  ++ [("key", VStr "a"); ("value", VStr "2")]
                  :: [[("key", VStr "b"); ("value", VStr "3")]])%list
                 []))) = VStr "2".
Proof.
  apply (setAsArray_then_get parse_epoch 1000
           [[("key", VStr "a"); ("value", VStr "1")]]
           [[("key", VStr "b"); ("value", VStr "3")]]
           [("key", VStr "a"); ("value", VStr "2")] "a" "2" []).
  - reflexivity.
  - reflexivity.
  - reflexivity.
  - reflexivity.
  - intros q [<-|[]]. discriminate.
Defined.
